(** * WHISPR: volume computation and source-well allocation

    A shallow embedding of [whispr.py]: [myround], [checkInputs],
    [generateVolumeTable] and [writeProtocol].

    Modelling conventions.
    - Volumes and concentrations are exact rationals ([Q]); the Python
      code computes them in binary floating point.  Comparisons and
      equalities of the code are those of [Q] ([Qle_bool], [Qeq_bool]).
      Sums, differences and quotients are exact here, so the model and
      the code can part where a float result is not the exact one: a
      quotient that lands on a half step ([myround 0.0375]), a running
      total or usage next to its threshold (0.1 + 2.2 + 0.2 against 2.5),
      the diluent [2.5 - vol].  The runs below that show the code
      departing from its description use values on which the float
      arithmetic gives the same results.
    - A pandas cell holding NaN is [None].
    - Python exceptions are values of [exn]; a function that may raise
      returns [result A].
    - The recipe (mixing table) is a list of reaction rows read in index
      order, each with its reagent columns in column order; the parsed
      destination layout is the dictionary [rxn_loc] in insertion order.
    - The recipe is a mapping: its reaction identifiers are distinct and
      so are its reagent columns, so [mixing_table_df.loc[row][column]]
      is one cell.
    - [source_plate_df.loc[column]] is the frame of the inventory rows
      whose index is [column] when there are several, and the row itself
      when there is one: its 'Concentration' is then a number, which has
      no [sort_values]. *)

From Stdlib Require Import QArith Qround Qabs ZArith String Ascii List Lia Lqa.
From Stdlib Require Import Sorted Permutation.
From stdpp Require Import gmap strings list.

Open Scope string_scope.
Open Scope list_scope.
Open Scope Q_scope.

(** ** Exceptions *)

Inductive exn : Type :=
| NameError (msg : string)          (* raise NameError(msg) *)
| UnboundLocalError (var : string)  (* a local read before assignment *)
| TypeError                         (* e.g. str + float, float(frame) *)
| IndexError                        (* position out of range *)
| KeyError (key : string)           (* label not in an index *)
| ValueError                        (* e.g. round(nan), misaligned series *)
| OverflowError                     (* round(inf) *)
| AttributeError.                   (* a method asked of a number *)


Definition result (A : Type) : Type := exn + A.

Definition ret {A} (a : A) : result A := inr a.
Definition raise {A} (e : exn) : result A := inl e.
Definition bind {A B} (c : result A) (k : A -> result B) : result B :=
  match c with
  | inl e => inl e
  | inr a => k a
  end.

Notation "'let*' x ':=' c 'in' k" := (bind c (fun x => k))
  (at level 10, x pattern, c at level 100, k at level 200).

(** [for x in xs: s = body(s, x)], stopping at the first exception. *)
Fixpoint for_each {S X} (body : S -> X -> result S) (s : S) (xs : list X)
  : result S :=
  match xs with
  | [] => ret s
  | x :: xs' => let* s' := body s x in for_each body s' xs'
  end.

(** ** Quantizer: [myround] *)

(** Python's one-argument [round]: nearest integer, ties to even. *)
Definition py_round (x : Q) : Z :=
  let f := Qfloor x in
  let d := x - inject_Z f in
  if Qle_bool d (1 # 2)
  then (if Qeq_bool d (1 # 2) then (if Z.even f then f else (f + 1)%Z) else f)
  else (f + 1)%Z.

(** Python's [round(x, prec)]: nearest multiple of [10 ^ -prec]. *)
Definition py_round_digits (x : Q) (prec : nat) : Q :=
  inject_Z (py_round (x * inject_Z (10 ^ Z.of_nat prec)))
  / inject_Z (10 ^ Z.of_nat prec).

Definition myround_with (x : Q) (prec : nat) (base : Q) : Q :=
  py_round_digits (base * inject_Z (py_round (x / base))) prec.

(** [def myround(x, prec=3, base=.025)] *)
Definition myround (x : Q) : Q := myround_with x 3 0.025.

(** ** Small helpers *)

(** [x < y] as the code tests it. *)
Definition Qlt_bool (x y : Q) : bool := negb (Qle_bool y x).

(** [needle in hay] on Python strings. *)
Fixpoint contains (needle hay : string) : bool :=
  String.prefix needle hay
  || match hay with
     | EmptyString => false
     | String _ rest => contains needle rest
     end.

(** [s.split(',')]: never the empty list. *)
Fixpoint split_comma (s : string) : list string :=
  match s with
  | EmptyString => [EmptyString]
  | String c rest =>
      if Ascii.eqb c ","%char then EmptyString :: split_comma rest
      else match split_comma rest with
           | [] => [String c EmptyString]
           | w :: ws => String c w :: ws
           end
  end.

(** ** Data model *)

(** The 'Volume' cell of an inventory row: a number, or a string of
    comma-separated numbers, given here by the values [float] reads from
    its pieces. *)
Inductive VolumeCell : Type :=
| VolumeNum (v : Q)
| VolumeStr (c : list Q).

(** A row of [source_plate_df]: its index value (the reagent column of
    the recipe it serves) and the fields Label, Well, Concentration and
    Volume. *)
Record SourceRow : Type := {
  sp_key : string;
  sp_label : string;
  sp_well : string;
  sp_conc : Q;
  sp_volume : VolumeCell
}.

(** [mixing_table_df]: reaction rows, each with (column, concentration). *)
Definition Recipe : Type := list (string * list (string * Q)).

(** [vol_table_df]: the columns after 'Label', and per row its 'Label'
    and the cells that are not NaN. *)
Record VolTable : Type := {
  vt_columns : list string;
  vt_rows : list (string * list (string * Q))
}.

(** A row of the protocol [output_df]. *)
Record Transfer : Type := {
  Source_Plate_Name : string;
  Source_Plate_Type : string;
  Source_Well : string;
  Destination_Plate_Name : string;
  Destination_Well : string;
  Transfer_Volume : Q
}.

(** ** RangeValidator: [checkInputs] *)

(** [(vol_min, vol_max)] as the two branches on [plate_type] bind them. *)
Definition vol_limits (plate_type : string) : option (Q * Q) :=
  if contains "LDV" plate_type then Some (4.5, 14)
  else if contains "384PP" plate_type then Some (20, 65)
  else None.

(** The list [vol]: every declared stock volume, multi-well cells split. *)
Definition declared_volumes (source_plate : list SourceRow) : list Q :=
  flat_map (fun r => match sp_volume r with
                     | VolumeStr c => c
                     | VolumeNum v => [v]
                     end) source_plate.

Definition above_msg : string :=
  "Volumes of source plate are above working volume range.".
Definition below_msg : string :=
  "Volumes of source plate are below working volume range.".

Definition checkInputs (source_plate : list SourceRow) (mixing_table : Recipe)
    (plate_type : string) : result unit :=
  let vol := declared_volumes source_plate in
  match vol with
  | [] => ret tt
  | _ :: _ =>
      match vol_limits plate_type with
      | None => raise (UnboundLocalError "vol_max")
      | Some (vol_min, vol_max) =>
          if existsb (fun v => Qlt_bool vol_max v) vol
          then raise (NameError above_msg)
          else if existsb (fun v => Qlt_bool v vol_min) vol
          then raise (NameError below_msg)
          else ret tt
      end
  end.

(** The two errors [checkInputs] raises on purpose. *)
Definition RangeError (e : exn) : Prop :=
  e = NameError above_msg \/ e = NameError below_msg.

(** ** ConcentrationResolver and VolumeTableBuilder: [generateVolumeTable] *)

(** Descending order on concentrations. *)
Definition desc (a b : Q) : Prop := b <= a.

Fixpoint insert_desc (c : Q) (l : list Q) : list Q :=
  match l with
  | [] => [c]
  | h :: t => if Qle_bool h c then c :: l else h :: insert_desc c t
  end.

(** [sort_values(ascending = False)] on the values of a series. *)
Definition sort_desc (l : list Q) : list Q := fold_right insert_desc [] l.

Definition entries_of (source_plate_df : list SourceRow) (column : string)
  : list SourceRow :=
  List.filter (fun r => String.eqb (sp_key r) column) source_plate_df.

(** [source_plate_df.loc[column]['Concentration'].sort_values(ascending = False)]:
    no row is a key error; one row makes ['Concentration'] a number. *)
Definition tiers (source_plate_df : list SourceRow) (column : string)
  : result (list Q) :=
  match entries_of source_plate_df column with
  | [] => raise (KeyError column)
  | [_] => raise AttributeError
  | e :: es => ret (sort_desc (map sp_conc (e :: es)))
  end.

(** [myround(10*conc_to_add/conc_of_source)]; a zero concentration makes
    the quotient infinite or NaN, which [round] refuses. *)
Definition volume_of (conc_to_add conc_of_source : Q) : result Q :=
  if Qeq_bool conc_of_source 0
  then (if Qeq_bool conc_to_add 0 then raise ValueError else raise OverflowError)
  else ret (myround (10 * conc_to_add / conc_of_source)).

(** The first lookup and the [while] loop of lines 85-91; [sorted] is the
    sorted series from position [label_indx] on.  Reading one position
    past the end raises.  Returns [(conc_of_source, vol_to_add)]. *)
Fixpoint resolve (conc_to_add : Q) (sorted : list Q) : result (Q * Q) :=
  match sorted with
  | [] => raise IndexError
  | conc_of_source :: rest =>
      let* vol_to_add := volume_of conc_to_add conc_of_source in
      if Qlt_bool 0 conc_to_add && Qeq_bool vol_to_add 0
      then resolve conc_to_add rest
      else ret (conc_of_source, vol_to_add)
  end.

(** Line 93: the 'Label' of the rows of [column] whose concentration is
    [conc_of_source]; a scalar when there is one such row. *)
Definition labels_at (source_plate_df : list SourceRow) (column : string)
    (conc_of_source : Q) : list string :=
  map sp_label
    (List.filter (fun r => Qeq_bool (sp_conc r) conc_of_source
                           && String.eqb (sp_key r) column) source_plate_df).

Fixpoint cell (cells : list (string * Q)) (c : string) : option Q :=
  match cells with
  | [] => None
  | (k, v) :: rest => if String.eqb k c then Some v else cell rest c
  end.

Fixpoint upd (c : string) (v : Q) (cells : list (string * Q))
  : list (string * Q) :=
  match cells with
  | [] => [(c, v)]
  | (k, w) :: rest =>
      if String.eqb k c then (c, v) :: rest else (k, w) :: upd c v rest
  end.

(** [vol_table_df.loc[vol_table_df['Label'] == name, c] = v]: the column
    is created when it is new, and every row labelled [name] is set. *)
Definition set_cell (name c : string) (v : Q) (t : VolTable) : VolTable :=
  {| vt_columns := if existsb (String.eqb c) (vt_columns t)
                   then vt_columns t else vt_columns t ++ [c];
     vt_rows := map (fun r => if String.eqb (fst r) name
                              then (fst r, upd c v (snd r)) else r)
                    (vt_rows t) |}.

(** [vol_table_df.append({'Label': row}, ignore_index = True)] *)
Definition append_row (row : string) (t : VolTable) : VolTable :=
  {| vt_columns := vt_columns t; vt_rows := vt_rows t ++ [(row, [])] |}.

(** The variables [label], [column], [vol_to_add] as the last pass of the
    inner loop left them ([None] before any pass). *)
Definition Last : Type := option (list string * string * Q).

(** One pass of the inner loop, lines 84-96. *)
Definition column_step (source_plate_df : list SourceRow) (row : string)
    (st : VolTable * Q * Last) (cc : string * Q) : result (VolTable * Q * Last) :=
  let '(vol_table_df, vol, _) := st in
  let '(column, conc_to_add) := cc in
  let* sorted := tiers source_plate_df column in
  let* (conc_of_source, vol_to_add) := resolve conc_to_add sorted in
  let label := labels_at source_plate_df column conc_of_source in
  let vol_table_df :=
    fold_left (fun t l => set_cell row l vol_to_add t) label vol_table_df in
  ret (vol_table_df, vol + vol_to_add, Some (label, column, vol_to_add)).

(** One pass of the outer loop, lines 80-103.  Building the message of
    line 99 adds a float to a string, so that line raises before the
    NameError exists. *)
Definition row_step (source_plate_df : list SourceRow)
    (st : VolTable * Last) (r : string * list (string * Q))
  : result (VolTable * Last) :=
  let '(vol_table_df, last) := st in
  let '(row, columns) := r in
  let vol_table_df := append_row row vol_table_df in
  let* (vol_table_df, vol, last) :=
    for_each (column_step source_plate_df row) (vol_table_df, 0, last) columns in
  if Qlt_bool 2.5 vol then raise TypeError
  else
    let vol_table_df := set_cell row "Water" (2.5 - vol) vol_table_df in
    match last with
    | None => raise (UnboundLocalError "label")
    | Some ([label], column, vol_to_add) =>
        ret (set_cell label column vol_to_add vol_table_df, last)
    | Some (_, _, _) => raise ValueError
    end.

Definition generateVolumeTable (mixing_table_df : Recipe)
    (source_plate_df : list SourceRow) : result VolTable :=
  let vol_table_df :=
    {| vt_columns := map sp_label source_plate_df; vt_rows := [] |} in
  let* (vol_table_df, _) :=
    for_each (row_step source_plate_df) (vol_table_df, None) mixing_table_df in
  ret vol_table_df.

(** ** WellAllocator and TransferProtocolBuilder: [writeProtocol] *)

Definition vol_range_of (plate_type : string) : option Q :=
  if contains "LDV" plate_type then Some 9.5
  else if contains "384PP" plate_type then Some 45
  else None.

Definition exhausted_msg (component : string) : string :=
  ("Need more volume of " ++ component
   ++ " to complete reaction. Add another well to source plate.")%string.

(** Lines 200-205 and 210: from the freshly split well list and the
    usage [vol_used[component]], the list whose front is the source well
    of the row, and the usage after the transfer. *)
Definition allocate (vol_range : option Q) (component : string)
    (source_well : list string) (used transfer_vol : Q)
  : result (list string * Q) :=
  match vol_range with
  | None => raise (UnboundLocalError "vol_range")
  | Some vol_range =>
      if Qle_bool vol_range (used + transfer_vol)
      then
        let source_well := tail source_well in
        if (length source_well =? 0)%nat
        then raise (NameError (exhausted_msg component))
        else ret (source_well, 0 + transfer_vol)
      else ret (source_well, used + transfer_vol)
  end.

(** [float(vols[component])], where [vols] are the rows labelled [rxn]:
    a frame (repeated column) or a series of another length than one is
    not convertible. *)
Definition float_of (vol_table : VolTable) (rxn component : string)
  : result (option Q) :=
  if (1 <? count_occ string_dec (vt_columns vol_table) component)%nat
  then raise TypeError
  else match List.filter (fun r => String.eqb (fst r) rxn) (vt_rows vol_table) with
       | [r] => ret (cell (snd r) component)
       | _ => raise TypeError
       end.

(** [list(source_plate_df[source_plate_df['Label'] == component]['Well'])] *)
Definition wells_of (source_plate_df : list SourceRow) (component : string)
  : list string :=
  map sp_well
    (List.filter (fun r => String.eqb (sp_label r) component) source_plate_df).

(** The body of the innermost loop, lines 192-212. *)
Definition transfer_step (plate_type : string) (vol_table : VolTable)
    (source_plate_df : list SourceRow) (rxn well : string)
    (st : gmap string Q * list Transfer) (component : string)
  : result (gmap string Q * list Transfer) :=
  let '(vol_used, output_df) := st in
  let* transfer_vol := float_of vol_table rxn component in
  match transfer_vol with
  | None => ret st
  | Some transfer_vol =>
      if Qlt_bool 0 transfer_vol then
        match wells_of source_plate_df component with
        | [] => raise IndexError
        | w :: _ =>
            match vol_used !! component with
            | None => raise (KeyError component)
            | Some used =>
                let* (source_well, used') :=
                  allocate (vol_range_of plate_type) component
                           (split_comma w) used transfer_vol in
                match source_well with
                | [] => raise IndexError
                | front :: _ =>
                    let row :=
                      {| Source_Plate_Name := "Source[1]";
                         Source_Plate_Type := plate_type;
                         Source_Well := front;
                         Destination_Plate_Name := "Destination[1]";
                         Destination_Well := well;
                         Transfer_Volume := transfer_vol * 1000 |} in
                    ret (<[component := used']> vol_used, output_df ++ [row])
                end
            end
        end
      else ret st
  end.

(** Lines 187-212 for one key of [rxn_loc]. *)
Definition rxn_step (plate_type : string) (vol_table : VolTable)
    (source_plate_df : list SourceRow)
    (st : gmap string Q * list Transfer) (entry : string * list string)
  : result (gmap string Q * list Transfer) :=
  let '(rxn, wells) := entry in
  if existsb (String.eqb rxn) (map fst (vt_rows vol_table))
  then for_each (fun st well =>
                   for_each (transfer_step plate_type vol_table
                                           source_plate_df rxn well)
                            st (vt_columns vol_table))
                st wells
  else ret st.

Definition writeProtocol (plate_type : string) (vol_table : VolTable)
    (rxn_loc : list (string * list string))
    (source_plate_df : list SourceRow) : result (list Transfer) :=
  let vol_used : gmap string Q :=
    fold_left (fun m k => <[k := 0]> m) (vt_columns vol_table) ∅ in
  let* (_, output_df) :=
    for_each (rxn_step plate_type vol_table source_plate_df)
             (vol_used, []) rxn_loc in
  ret output_df.

(** ** Destination layout: lines 145-153 of [writeProtocol] *)

(** The frame [plate] read from the layout file: its column labels and,
    per row, the row label as [str] prints it and the cells, NaN being
    [None].  Every row has one cell per column. *)
Record Plate : Type := {
  plate_columns : list string;
  plate_rows : list (string * list (option string))
}.

Definition rectangular (plate : Plate) : Prop :=
  Forall (fun r => length (snd r) = length (plate_columns plate))
         (plate_rows plate).

Definition same_value (x y : option string) : bool :=
  match x, y with
  | Some a, Some b => String.eqb a b
  | None, None => true
  | _, _ => false
  end.

(** [pd.unique]: the values in order of first appearance; [seen] are the
    values met so far. *)
Fixpoint unique (seen values : list (option string)) : list (option string) :=
  match values with
  | [] => []
  | x :: rest =>
      if existsb (same_value x) seen then unique seen rest
      else x :: unique (x :: seen) rest
  end.

(** The cells in stacking order, row by row, each with [str(i[0]) + i[1]]. *)
Definition plate_cells (plate : Plate) : list (string * option string) :=
  flat_map (fun r => map (fun cx => ((fst r ++ fst cx)%string, snd cx))
                         (combine (plate_columns plate) (snd r)))
           (plate_rows plate).

Definition holds (l : string) (x : option string) : bool :=
  same_value x (Some l).

(** The wells of [plate[plate.isin([l])].stack().index]. *)
Definition positions (plate : Plate) (l : string) : list string :=
  map fst (List.filter (fun pc => holds l (snd pc)) (plate_cells plate)).

(** The dictionary [rxn_loc]; [np.concatenate] refuses a frame without
    rows, and only the labels that are strings get a key. *)
Definition rxn_loc_of (plate : Plate) : result (list (string * list string)) :=
  match plate_rows plate with
  | [] => raise ValueError
  | _ :: _ =>
      let labels := unique [] (concat (map snd (plate_rows plate))) in
      ret (flat_map (fun l => match l with
                              | Some l => [(l, positions plate l)]
                              | None => []
                              end) labels)
  end.

(** A cell that holds a reaction label. *)
Definition labelled (x : option string) : bool :=
  match x with Some _ => true | None => false end.

(** [writeProtocol] from the layout frame on. *)
Definition writeProtocol_plate (plate_type : string) (vol_table : VolTable)
    (plate : Plate) (source_plate_df : list SourceRow)
  : result (list Transfer) :=
  let* rxn_loc := rxn_loc_of plate in
  writeProtocol plate_type vol_table rxn_loc source_plate_df.

(** ** Load report: lines 222-227 of [writeProtocol] *)

(** The keys of a dictionary filled from [ks], in insertion order. *)
Fixpoint first_keys (seen ks : list string) : list string :=
  match ks with
  | [] => []
  | k :: rest =>
      if existsb (String.eqb k) seen then first_keys seen rest
      else k :: first_keys (k :: seen) rest
  end.

(** One printed line, as (component, least volume to load, most). *)
Definition report_line (plate_type component : string) (used : Q)
  : list (string * Q * Q) :=
  if contains "LDV" plate_type
  then [(component, py_round_digits (4.5 + used) 2, 14)]
  else if contains "384PP" plate_type
  then [(component, py_round_digits (20 + used) 2, 65)]
  else [].

(** [for component in vol_used: print(...)]: the numbers of the lines
    printed, in order. *)
Definition load_report (plate_type : string) (vol_used : gmap string Q)
    (keys : list string) : result (list (string * Q * Q)) :=
  for_each (fun lines component =>
              match vol_used !! component with
              | None => raise (KeyError component)
              | Some used => ret (lines ++ report_line plate_type component used)
              end) [] keys.

(** [writeProtocol] with what it prints beside what it returns. *)
Definition writeProtocol_report (plate_type : string) (vol_table : VolTable)
    (rxn_loc : list (string * list string))
    (source_plate_df : list SourceRow)
  : result (list Transfer * list (string * Q * Q)) :=
  let vol_used : gmap string Q :=
    fold_left (fun m k => <[k := 0]> m) (vt_columns vol_table) ∅ in
  let* (vol_used, output_df) :=
    for_each (rxn_step plate_type vol_table source_plate_df)
             (vol_used, []) rxn_loc in
  let* lines :=
    load_report plate_type vol_used (first_keys [] (vt_columns vol_table)) in
  ret (output_df, lines).

(** Every number of the table is below [bound]. *)
Definition cells_below (vol_table : VolTable) (bound : Q) : Prop :=
  forall n cells c v,
    In (n, cells) (vt_rows vol_table) -> cell cells c = Some v -> v < bound.

(** Every usage lies in [0, bound). *)
Definition usage_within (bound : Q) (st : gmap string Q * list Transfer)
  : Prop :=
  forall c u, fst st !! c = Some u -> 0 <= u /\ u < bound.

(** ** Concrete inputs *)

(** Reagent A stocked at concentration 100 (well W1) and 10 (well W2). *)
Definition ex_source : list SourceRow :=
  [ {| sp_key := "A"; sp_label := "A_100"; sp_well := "W1";
       sp_conc := 100; sp_volume := VolumeNum 30 |};
    {| sp_key := "A"; sp_label := "A_10"; sp_well := "W2";
       sp_conc := 10; sp_volume := VolumeNum 30 |} ].

(** The same inventory with the second stock declared at 70. *)
Definition ex_overfull : list SourceRow :=
  [ {| sp_key := "A"; sp_label := "A_100"; sp_well := "W1";
       sp_conc := 100; sp_volume := VolumeNum 30 |};
    {| sp_key := "A"; sp_label := "A_10"; sp_well := "W2";
       sp_conc := 10; sp_volume := VolumeNum 70 |} ].

(** The inventory of A with one more reagent, C, which has a single
    stock, at concentration 50. *)
Definition ex_source_C : list SourceRow :=
  ex_source
  ++ [ {| sp_key := "C"; sp_label := "C_50"; sp_well := "W3";
          sp_conc := 50; sp_volume := VolumeNum 30 |} ].

(** A recipe whose one reaction bears the name of a stock. *)
Definition ex_recipe_named_like_stock : Recipe := [("A_100", [("A", 5)])].

(** Reagent B: the stock at 100 is spread over the wells W1 and W2, the
    stock at 10 over W3, W4 and W5. *)
Definition ex_source_B : list SourceRow :=
  [ {| sp_key := "B"; sp_label := "B_100"; sp_well := "W1,W2";
       sp_conc := 100; sp_volume := VolumeStr [10; 10] |};
    {| sp_key := "B"; sp_label := "B_10"; sp_well := "W3,W4,W5";
       sp_conc := 10; sp_volume := VolumeStr [10; 10; 10] |} ].

(** Both reagents and the diluent in one inventory. *)
Definition ex_source_AB : list SourceRow :=
  ex_source ++ ex_source_B
  ++ [ {| sp_key := "Water"; sp_label := "Water"; sp_well := "W6";
          sp_conc := 1; sp_volume := VolumeNum 10 |} ].

(** Two reactions over A and B: R1 takes 0.5 of A_100 and 0.025 of B_10,
    R2 takes nothing of A and 2.5 of B_100. *)
Definition ex_recipe_AB : Recipe :=
  [ ("R1", [("A", 5); ("B", 0.02)]);
    ("R2", [("A", 0); ("B", 25)]) ].

(** One reaction taking the whole 2.5 of the stock at 100. *)
Definition ex_recipe_B : Recipe := [("R1", [("B", 25)])].

(** The volume table of [ex_recipe_B] over [ex_source_B]. *)
Definition ex_table_B : VolTable :=
  {| vt_columns := ["B_100"; "B_10"; "Water"; "B"];
     vt_rows := [("R1", [("B_100", 2.500); ("Water", 0.0000)])] |}.

(** A volume table whose one reaction takes 2.5 of the stock at 10. *)
Definition ex_table_B10 : VolTable :=
  {| vt_columns := ["B_100"; "B_10"; "Water"; "B"];
     vt_rows := [("R1", [("B_10", 2.5); ("Water", 0)])] |}.

(** A volume table whose one reaction takes 2.5 of the stock A_100, which
    sits in the single well W1. *)
Definition ex_table_A : VolTable :=
  {| vt_columns := ["A_100"; "A_10"; "Water"; "A"];
     vt_rows := [("R1", [("A_100", 2.5); ("Water", 0)])] |}.

(** A volume table with nothing to transfer. *)
Definition ex_table_idle : VolTable :=
  {| vt_columns := ["A_100"; "A_10"; "Water"; "A"];
     vt_rows := [("R1", [("A_100", 0); ("Water", 0)])] |}.

(** A layout frame of two rows and three columns: R1 twice, R2 twice,
    one empty cell and one cell of R9. *)
Definition ex_plate : Plate :=
  {| plate_columns := ["1"; "2"; "3"];
     plate_rows := [ ("A", [Some "R1"; Some "R2"; None]);
                     ("B", [Some "R2"; Some "R1"; Some "R9"]) ] |}.

(** A volume table whose one reaction takes 1 of the stock at 100 and
    1.5 of the stock at 10. *)
Definition ex_table_mixed : VolTable :=
  {| vt_columns := ["B_100"; "B_10"; "Water"; "B"];
     vt_rows := [("R1", [("B_100", 1); ("B_10", 1.5); ("Water", 0)])] |}.

(** A layout with five replicates of R1. *)
Definition ex_layout_five : list (string * list string) :=
  [ ("R1", ["A1"; "A2"; "A3"; "A4"; "A5"]) ].

(** A layout with ten replicates of R1 and one position of a reaction
    that the recipe does not have. *)
Definition ex_layout : list (string * list string) :=
  [ ("R1", ["A1"; "A2"; "A3"; "A4"; "A5"; "A6"; "A7"; "A8"; "A9"; "A10"]);
    ("R9", ["B1"]) ].

(** ** Rows of the volume table *)

(** Sum of the reagent volumes of a table row: every cell that holds a
    number, the diluent column 'Water' apart. *)
Fixpoint reagent_total (cells : list (string * Q)) : Q :=
  match cells with
  | [] => 0
  | (k, v) :: rest =>
      if String.eqb k "Water" then reagent_total rest
      else v + reagent_total rest
  end.

(** Reaction closure of one row. *)
Definition closed_row (cells : list (string * Q)) : Prop :=
  exists water, cell cells "Water" = Some water
                /\ reagent_total cells + water == 2.5
                /\ reagent_total cells <= 2.5.

(** The labels left in the variable [label] are labels of stocks. *)
Definition labelled_by_stock (source_plate_df : list SourceRow) (last : Last)
  : Prop :=
  match last with
  | Some (labels, _, _) =>
      forall l, In l labels -> In l (map sp_label source_plate_df)
  | None => True
  end.

(** ** Well-formed inputs

    Names are used as identifiers: the reaction identifiers of the recipe
    are distinct, and so are the reagent columns of a reaction and the
    labels of the inventory; no two entries of a reagent have the same
    concentration; no reaction is named like a stock; and no stock of a
    reagent of the recipe is labelled 'Water'. *)

Fixpoint distinctb (l : list string) : bool :=
  match l with
  | [] => true
  | x :: rest => negb (existsb (String.eqb x) rest) && distinctb rest
  end.

Fixpoint distinct_tiersb (source_plate_df : list SourceRow) : bool :=
  match source_plate_df with
  | [] => true
  | e :: rest =>
      forallb (fun e' => negb (String.eqb (sp_key e') (sp_key e)
                               && Qeq_bool (sp_conc e') (sp_conc e))) rest
      && distinct_tiersb rest
  end.

Definition reaction_not_stock (source_plate_df : list SourceRow)
    (r : string * list (string * Q)) : bool :=
  negb (existsb (String.eqb (fst r)) (map sp_label source_plate_df)).

Definition stocks_not_water (source_plate_df : list SourceRow)
    (r : string * list (string * Q)) : bool :=
  forallb (fun cc =>
             forallb (fun e => negb (String.eqb (sp_key e) (fst cc)
                                     && String.eqb (sp_label e) "Water"))
                     source_plate_df) (snd r).

Definition well_formed (mixing_table_df : Recipe)
    (source_plate_df : list SourceRow) : bool :=
  distinctb (map fst mixing_table_df)
  && forallb (fun r => distinctb (map fst (snd r))) mixing_table_df
  && distinctb (map sp_label source_plate_df)
  && distinct_tiersb source_plate_df
  && forallb (reaction_not_stock source_plate_df) mixing_table_df
  && forallb (stocks_not_water source_plate_df) mixing_table_df.

(** ** What the protocol is expected to hold *)

(** Destination well and volume of a protocol row. *)
Definition placed (t : Transfer) : string * Q :=
  (Destination_Well t, Transfer_Volume t).

(** The transfers of one position [well] for the table row [cells]: one
    per column whose cell is a number above 0, in column order. *)
Definition transfers_at (columns : list string) (cells : list (string * Q))
    (well : string) : list (string * Q) :=
  flat_map (fun component =>
              match cell cells component with
              | Some transfer_vol =>
                  if Qlt_bool 0 transfer_vol
                  then [(well, transfer_vol * 1000)] else []
              | None => []
              end) columns.

(** The transfers of a whole layout: positions of a reaction without a
    table row give none. *)
Definition expected_transfers (vol_table : VolTable)
    (rxn_loc : list (string * list string)) : list (string * Q) :=
  flat_map (fun entry =>
              match List.filter (fun r => String.eqb (fst r) (fst entry))
                                (vt_rows vol_table) with
              | [] => []
              | r :: _ =>
                  flat_map (transfers_at (vt_columns vol_table) (snd r))
                           (snd entry)
              end) rxn_loc.

(** The transfers of one position, each with the column it is made for:
    (component, destination well, volume). *)
Definition draws_at (columns : list string) (cells : list (string * Q))
    (well : string) : list (string * string * Q) :=
  flat_map (fun component =>
              match cell cells component with
              | Some transfer_vol =>
                  if Qlt_bool 0 transfer_vol
                  then [(component, well, transfer_vol * 1000)] else []
              | None => []
              end) columns.

(** The same for a whole layout, in the order of the loops. *)
Definition expected_draws (vol_table : VolTable)
    (rxn_loc : list (string * list string)) : list (string * string * Q) :=
  flat_map (fun entry =>
              match List.filter (fun r => String.eqb (fst r) (fst entry))
                                (vt_rows vol_table) with
              | [] => []
              | r :: _ =>
                  flat_map (draws_at (vt_columns vol_table) (snd r))
                           (snd entry)
              end) rxn_loc.

(** The protocol row [t] is the transfer [d]: it goes to the position of
    [d] with the volume of [d], and its source well is the first or the
    second well of the 'Well' cell that the inventory declares for the
    component of [d]. *)
Definition drawn (source_plate_df : list SourceRow) (t : Transfer)
    (d : string * string * Q) : Prop :=
  let '(component, well, transfer_vol) := d in
  Destination_Well t = well
  /\ Transfer_Volume t = transfer_vol
  /\ exists w ws,
       wells_of source_plate_df component = w :: ws
       /\ (split_comma w !! 0%nat = Some (Source_Well t)
           \/ split_comma w !! 1%nat = Some (Source_Well t)).

Definition has_row (vol_table : VolTable) (entry : string * list string)
  : bool :=
  existsb (String.eqb (fst entry)) (map fst (vt_rows vol_table)).

(** ** Further notions *)

(** A value that the quantizer returned for a target and a stock. *)
Definition quantized (v : Q) : Prop :=
  exists conc_to_add conc_of_source : Q,
    v = myround (10 * conc_to_add / conc_of_source).

(** Every number held by the table outside the column 'Water' came from
    the quantizer. *)
Definition table_on_grid (t : VolTable) : Prop :=
  forall n cells k v,
    In (n, cells) (vt_rows t) -> In (k, v) cells -> k <> "Water" ->
    quantized v.

(** The state of the inner loop: the table, and the volume left in
    [vol_to_add]. *)
Definition inner_on_grid (st : VolTable * Q * Last) : Prop :=
  let '(t, _, last) := st in
  table_on_grid t
  /\ match last with Some (_, _, v) => quantized v | None => True end.

(** The state of the outer loop, likewise. *)
Definition outer_on_grid (st : VolTable * Last) : Prop :=
  table_on_grid (fst st)
  /\ match snd st with Some (_, _, v) => quantized v | None => True end.

(** [t] has the rows of [t0] under the same labels, and the columns of
    [t0] followed by more. *)
Definition extends (t0 t : VolTable) : Prop :=
  map fst (vt_rows t) = map fst (vt_rows t0)
  /\ exists extra, vt_columns t = vt_columns t0 ++ extra.

(** The usage dictionary has an entry for every column of the table. *)
Definition usage_covers (vol_table : VolTable) (vol_used : gmap string Q)
  : Prop :=
  forall c, In c (vt_columns vol_table) -> is_Some (vol_used !! c).

(** The exceptions that leave [writeProtocol]. *)
Definition raised_by_protocol (plate_type : string) (vol_table : VolTable)
    (source_plate_df : list SourceRow) (e : exn) : Prop :=
  e = TypeError \/ e = IndexError
  \/ (vol_range_of plate_type = None /\ e = UnboundLocalError "vol_range")
  \/ exists component w ws,
       In component (vt_columns vol_table)
       /\ wells_of source_plate_df component = w :: ws
       /\ length (split_comma w) = 1%nat
       /\ e = NameError (exhausted_msg component).

(** A protocol row as [writeProtocol] writes it for [plate_type] and the
    layout [rxn_loc]. *)
Definition written_row (plate_type : string)
    (rxn_loc : list (string * list string)) (t : Transfer) : Prop :=
  Source_Plate_Name t = "Source[1]"
  /\ Source_Plate_Type t = plate_type
  /\ Destination_Plate_Name t = "Destination[1]"
  /\ 0 < Transfer_Volume t
  /\ contains "," (Source_Well t) = false
  /\ exists rxn wells, In (rxn, wells) rxn_loc /\ In (Destination_Well t) wells.


(** What the loops of [writeProtocol] keep true of their state. *)
Definition protocol_state_ok (plate_type : string) (vol_table : VolTable)
    (rxn_loc : list (string * list string))
    (st : gmap string Q * list Transfer) : Prop :=
  usage_covers vol_table (fst st)
  /\ Forall (written_row plate_type rxn_loc) (snd st).

(** The same, together with: from [st0] on nothing has changed when the
    plate type is not recognised. *)
Definition kept_from (plate_type : string) (vol_table : VolTable)
    (rxn_loc : list (string * list string))
    (st0 st : gmap string Q * list Transfer) : Prop :=
  protocol_state_ok plate_type vol_table rxn_loc st
  /\ (vol_range_of plate_type = None -> st = st0).

(** ** Facts about rounding *)

Lemma py_round_comp (x y : Q) : x == y -> py_round x = py_round y.
Proof.
  intros E. unfold py_round.
  rewrite (Qfloor_comp _ _ E).
  set (f := Qfloor y).
  assert (Ed : x - inject_Z f == y - inject_Z f) by (rewrite E; reflexivity).
  rewrite (Qleb_comp _ _ Ed _ _ (Qeq_refl (1 # 2))).
  rewrite (Qeqb_comp _ _ Ed _ _ (Qeq_refl (1 # 2))).
  reflexivity.
Qed.

Lemma py_round_Z (z : Z) : py_round (inject_Z z) = z.
Proof.
  unfold py_round. rewrite Qfloor_Z.
  assert (E : inject_Z z - inject_Z z == 0) by ring.
  rewrite (Qleb_comp _ _ E _ _ (Qeq_refl (1 # 2))).
  rewrite (Qeqb_comp _ _ E _ _ (Qeq_refl (1 # 2))).
  reflexivity.
Qed.

Lemma py_round_near (x : Q) : Qabs (x - inject_Z (py_round x)) <= 1 # 2.
Proof.
  unfold py_round.
  pose proof (Qfloor_le x) as Hlo.
  pose proof (Qlt_floor x) as Hhi.
  rewrite inject_Z_plus in Hhi. change (inject_Z 1) with 1 in Hhi.
  destruct (Qle_bool (x - inject_Z (Qfloor x)) (1 # 2)) eqn:Hle.
  - apply Qle_bool_iff in Hle.
    assert (Hup : Qabs (x - (inject_Z (Qfloor x) + 1)) <= 1 # 2
                  \/ ~ x - inject_Z (Qfloor x) == 1 # 2).
    { destruct (Qeq_dec (x - inject_Z (Qfloor x)) (1 # 2)) as [E | E];
        [left | right; exact E].
      apply Qabs_Qle_condition. split; lra. }
    assert (Hdown : Qabs (x - inject_Z (Qfloor x)) <= 1 # 2).
    { apply Qabs_Qle_condition. split; lra. }
    destruct (Qeq_bool (x - inject_Z (Qfloor x)) (1 # 2)) eqn:Heq;
      [| exact Hdown].
    apply Qeq_bool_iff in Heq.
    destruct (Z.even (Qfloor x)); [exact Hdown |].
    rewrite inject_Z_plus. change (inject_Z 1) with 1.
    destruct Hup as [Hup | Hup]; [exact Hup | contradiction].
  - assert (Hgt : 1 # 2 < x - inject_Z (Qfloor x)).
    { apply Qnot_le_lt. intros C. apply Qle_bool_iff in C. congruence. }
    rewrite inject_Z_plus. change (inject_Z 1) with 1.
    apply Qabs_Qle_condition. split; lra.
Qed.

(** [myround x] is the grid point [k * 0.025] for [k = round(x / 0.025)]. *)
Lemma myround_grid (x : Q) :
  myround x == inject_Z (py_round (x / 0.025)) * 0.025.
Proof.
  unfold myround, myround_with, py_round_digits.
  set (k := py_round (x / 0.025)).
  assert (E : 0.025 * inject_Z k * inject_Z (10 ^ Z.of_nat 3)
              == inject_Z (25 * k)).
  { rewrite inject_Z_mult. change (inject_Z (10 ^ Z.of_nat 3)) with 1000.
    change (inject_Z 25) with 25. field. }
  rewrite (py_round_comp _ _ E), py_round_Z.
  rewrite inject_Z_mult. change (inject_Z (10 ^ Z.of_nat 3)) with 1000.
  change (inject_Z 25) with 25. field.
Qed.

Lemma myround_comp (x y : Q) : x == y -> myround x = myround y.
Proof.
  intros E. unfold myround, myround_with, py_round_digits.
  assert (E' : x / 0.025 == y / 0.025) by (rewrite E; reflexivity).
  rewrite (py_round_comp _ _ E'). reflexivity.
Qed.

Lemma myround_zero : myround 0 == 0.
Proof. reflexivity. Qed.

(** C8.  The quantizer is idempotent, its value is a whole number of
    0.025 steps, and that grid point is a nearest one to the argument
    (at most half a step away).  Stated for every rational [x], hence in
    particular for the non-negative ones. *)
Theorem myround_idempotent (x : Q) :
  myround (myround x) == myround x
  /\ (exists k : Z, myround x == inject_Z k * 0.025)
  /\ Qabs (x - myround x) <= 0.0125.
Proof.
  split; [| split].
  - rewrite (myround_grid (myround x)).
    assert (E : myround x / 0.025 == inject_Z (py_round (x / 0.025))).
    { rewrite (myround_grid x). field. }
    rewrite (py_round_comp _ _ E), py_round_Z.
    symmetry. apply myround_grid.
  - exists (py_round (x / 0.025)). apply myround_grid.
  - rewrite (myround_grid x).
    pose proof (py_round_near (x / 0.025)) as H.
    set (k := inject_Z (py_round (x / 0.025))) in *.
    apply Qabs_Qle_condition in H. destruct H as [H1 H2].
    assert (Ex : x == (x / 0.025) * 0.025) by field.
    set (q := x / 0.025) in *.
    apply Qabs_Qle_condition. split.
    + rewrite Ex at 1. lra.
    + rewrite Ex at 1. lra.
Qed.

(** ** Facts about the helpers *)

Lemma Qlt_bool_iff (x y : Q) : Qlt_bool x y = true <-> x < y.
Proof.
  unfold Qlt_bool. destruct (Qle_bool y x) eqn:E; simpl.
  - apply Qle_bool_iff in E. split; [discriminate |].
    intros H. exfalso. exact (Qlt_not_le _ _ H E).
  - split; [intros _ | reflexivity].
    apply Qnot_le_lt. intros C. apply Qle_bool_iff in C. congruence.
Qed.

Lemma Qlt_bool_false (x y : Q) : Qlt_bool x y = false <-> ~ x < y.
Proof.
  rewrite <- Qlt_bool_iff. destruct (Qlt_bool x y); split; intros H;
    congruence.
Qed.

Lemma Qeq_bool_false (x y : Q) : Qeq_bool x y = false <-> ~ x == y.
Proof.
  split.
  - intros H C. apply Qeq_bool_iff in C. congruence.
  - intros H. destruct (Qeq_bool x y) eqn:E; [| reflexivity].
    apply Qeq_bool_iff in E. contradiction.
Qed.

Lemma for_each_cons_inr {S X} (body : S -> X -> result S) (s s' : S) (x : X)
    (xs : list X) :
  for_each body s (x :: xs) = inr s' ->
  exists s1, body s x = inr s1 /\ for_each body s1 xs = inr s'.
Proof.
  simpl. destruct (body s x) as [e | s1]; simpl; [discriminate |].
  intros H. exists s1. split; [reflexivity | exact H].
Qed.

(** ** RangeValidator *)

(** C9.  For a plate type that selects bounds [(vol_min, vol_max)]
    (4.5 and 14 when it contains LDV, otherwise 20 and 65 when it
    contains 384PP), [checkInputs] raises a range error exactly when some
    declared stock volume, multi-well cells split, is strictly above
    [vol_max] or strictly below [vol_min]; otherwise it returns nothing.
    It is a function of its inputs and leaves them as they are. *)
Theorem checkInputs_range_error (source_plate : list SourceRow)
    (mixing_table : Recipe) (plate_type : string) (vol_min vol_max : Q) :
  vol_limits plate_type = Some (vol_min, vol_max) ->
  (contains "LDV" plate_type = true -> vol_min = 4.5 /\ vol_max = 14)
  /\ (contains "LDV" plate_type = false ->
      contains "384PP" plate_type = true -> vol_min = 20 /\ vol_max = 65)
  /\ ((exists e, checkInputs source_plate mixing_table plate_type = inl e
                 /\ RangeError e)
      <-> (exists v, In v (declared_volumes source_plate)
                     /\ (vol_max < v \/ v < vol_min)))
  /\ (checkInputs source_plate mixing_table plate_type = inr tt
      \/ exists e, checkInputs source_plate mixing_table plate_type = inl e
                   /\ RangeError e).
Proof.
  intros Hlim.
  split; [| split].
  - intros H. unfold vol_limits in Hlim. rewrite H in Hlim.
    inversion Hlim. split; reflexivity.
  - intros H1 H2. unfold vol_limits in Hlim. rewrite H1, H2 in Hlim.
    inversion Hlim. split; reflexivity.
  - unfold checkInputs. rewrite Hlim.
    destruct (declared_volumes source_plate) as [| v0 vol] eqn:Hvol.
    { split.
      - split.
        + intros (e & He & _). discriminate.
        + intros (v & [] & _).
      - left. reflexivity. }
    destruct (existsb (fun v => Qlt_bool vol_max v) (v0 :: vol)) eqn:Habove.
    { split.
      - split.
        + intros _. apply existsb_exists in Habove.
          destruct Habove as (v & Hin & Hv). apply Qlt_bool_iff in Hv.
          exists v. split; [exact Hin | left; exact Hv].
        + intros _. exists (NameError above_msg).
          split; [reflexivity | left; reflexivity].
      - right. exists (NameError above_msg).
        split; [reflexivity | left; reflexivity]. }
    destruct (existsb (fun v => Qlt_bool v vol_min) (v0 :: vol)) eqn:Hbelow.
    { split.
      - split.
        + intros _. apply existsb_exists in Hbelow.
          destruct Hbelow as (v & Hin & Hv). apply Qlt_bool_iff in Hv.
          exists v. split; [exact Hin | right; exact Hv].
        + intros _. exists (NameError below_msg).
          split; [reflexivity | right; reflexivity].
      - right. exists (NameError below_msg).
        split; [reflexivity | right; reflexivity]. }
    split; [| left; reflexivity].
    split.
    + intros (e & He & _). discriminate.
    + intros (v & Hin & [Hv | Hv]); exfalso.
      * assert (E : existsb (fun v => Qlt_bool vol_max v) (v0 :: vol) = true).
        { apply existsb_exists. exists v. split; [exact Hin |].
          apply Qlt_bool_iff. exact Hv. }
        congruence.
      * assert (E : existsb (fun v => Qlt_bool v vol_min) (v0 :: vol) = true).
        { apply existsb_exists. exists v. split; [exact Hin |].
          apply Qlt_bool_iff. exact Hv. }
        congruence.
Qed.

(** A declared volume of 70 on a 384PP plate: 70 > 65. *)
Lemma checkInputs_range_error_witness :
  vol_limits "384PP_AQ_BP" = Some (20, 65)
  /\ checkInputs ex_overfull [] "384PP_AQ_BP" = inl (NameError above_msg)
  /\ exists e, checkInputs ex_overfull [] "384PP_AQ_BP" = inl e /\ RangeError e.
Proof.
  split; [reflexivity |]. split; [reflexivity |].
  destruct (checkInputs_range_error ex_overfull [] "384PP_AQ_BP" 20 65 eq_refl)
    as (_ & _ & [_ H] & _).
  apply H. exists 70. split; [simpl; auto | left; reflexivity].
Defined.

(** ** WellAllocator *)

(** One allocation taken by itself (lines 200-205 and 210), from the
    freshly split well list [declared], the
    usage [u] and the transfer [v], under the threshold of the plate type
    (9.5 for LDV, 45 for 384PP): when [u + v] is below the threshold the
    list is kept, so the front well is returned, and the usage becomes
    [u + v]; otherwise the front is dropped, so the next declared well is
    returned, and the usage becomes [v].  Whenever the step returns, it
    kept the list if and only if [u + v] is below the threshold. *)
Theorem allocate_rotation (plate_type component : string) (vol_range : Q)
    (declared : list string) (u v : Q) :
  vol_range_of plate_type = Some vol_range ->
  (contains "LDV" plate_type = true -> vol_range = 9.5)
  /\ (contains "LDV" plate_type = false ->
      contains "384PP" plate_type = true -> vol_range = 45)
  /\ (u + v < vol_range ->
      allocate (vol_range_of plate_type) component declared u v
      = inr (declared, u + v))
  /\ (~ u + v < vol_range ->
      forall next rest, tail declared = next :: rest ->
      allocate (vol_range_of plate_type) component declared u v
      = inr (next :: rest, 0 + v)
      /\ declared !! 1%nat = Some next /\ 0 + v == v)
  /\ (forall source_well used',
      allocate (vol_range_of plate_type) component declared u v
      = inr (source_well, used') ->
      (source_well = declared <-> u + v < vol_range)
      /\ (~ u + v < vol_range ->
          source_well = tail declared /\ used' == v)).
Proof.
  intros Hvr. rewrite Hvr.
  split; [| split; [| split; [| split]]].
  - intros H. unfold vol_range_of in Hvr. rewrite H in Hvr. congruence.
  - intros H1 H2. unfold vol_range_of in Hvr. rewrite H1, H2 in Hvr.
    congruence.
  - intros Hlt. unfold allocate.
    destruct (Qle_bool vol_range (u + v)) eqn:E; [| reflexivity].
    apply Qle_bool_iff in E. exfalso. exact (Qlt_not_le _ _ Hlt E).
  - intros Hge next rest Htl. unfold allocate.
    destruct (Qle_bool vol_range (u + v)) eqn:E.
    + rewrite Htl. simpl. split; [reflexivity |].
      split; [| ring].
      destruct declared as [| d0 ds]; simpl in Htl; [discriminate |].
      subst ds. reflexivity.
    + exfalso. apply Hge. apply Qnot_le_lt. intros C.
      apply Qle_bool_iff in C. congruence.
  - intros source_well used'. unfold allocate.
    destruct (Qle_bool vol_range (u + v)) eqn:E.
    + apply Qle_bool_iff in E.
      destruct (length (tail declared) =? 0)%nat eqn:Hlen; [discriminate |].
      intros H. inversion H. subst. split.
      * split.
        -- intros Heq. apply Nat.eqb_neq in Hlen. exfalso.
           assert (L : length (tail declared) = length declared)
             by (rewrite Heq; reflexivity).
           destruct declared; simpl in *; lia.
        -- intros Hlt. exfalso. exact (Qlt_not_le _ _ Hlt E).
      * intros _. split; [reflexivity | ring].
    + intros H. inversion H. subst. split.
      * split; [| reflexivity].
        intros _. apply Qnot_le_lt. intros C.
        apply Qle_bool_iff in C. congruence.
      * intros Hge. exfalso. apply Hge. apply Qnot_le_lt. intros C.
        apply Qle_bool_iff in C. congruence.
Qed.

(** Two wells, threshold 45, usage 40, a transfer of 20: 60 >= 45, so the
    second well is used and the usage restarts at 20. *)
Lemma allocate_rotation_witness :
  vol_range_of "384PP_AQ_BP" = Some 45
  /\ allocate (vol_range_of "384PP_AQ_BP") "B" ["W1"; "W2"] 40 20
     = inr (["W2"], 0 + 20)
  /\ allocate (vol_range_of "384PP_AQ_BP") "B" ["W1"; "W2"] 20 20
     = inr (["W1"; "W2"], 20 + 20).
Proof.
  destruct (allocate_rotation "384PP_AQ_BP" "B" 45 ["W1"; "W2"] 40 20 eq_refl)
    as (_ & _ & _ & Hrot & _).
  destruct (allocate_rotation "384PP_AQ_BP" "B" 45 ["W1"; "W2"] 20 20 eq_refl)
    as (_ & _ & Hkeep & _).
  split; [reflexivity |]. split.
  - apply (Hrot (fun C : 40 + 20 < 45 => ltac:(vm_compute in C; discriminate))
             "W2" [] eq_refl).
  - apply Hkeep. reflexivity.
Defined.

(** ** ConcentrationResolver *)

Lemma insert_desc_HdRel (h c : Q) (t : list Q) :
  c <= h -> HdRel desc h t -> HdRel desc h (insert_desc c t).
Proof.
  intros Hc Ht. destruct t as [| x t]; simpl.
  - constructor. exact Hc.
  - destruct (Qle_bool x c); constructor; [exact Hc |].
    inversion Ht. assumption.
Qed.

Lemma insert_desc_sorted (c : Q) (l : list Q) :
  Sorted desc l -> Sorted desc (insert_desc c l).
Proof.
  induction l as [| h t IH]; intros Hs; simpl.
  - repeat constructor.
  - destruct (Qle_bool h c) eqn:E.
    + apply Qle_bool_iff in E. constructor; [exact Hs |].
      constructor. exact E.
    + inversion Hs as [| ? ? Ht Hh]. subst.
      constructor; [apply IH; exact Ht |].
      apply insert_desc_HdRel; [| exact Hh].
      apply Qlt_le_weak. apply Qnot_le_lt. intros C.
      apply Qle_bool_iff in C. congruence.
Qed.

Lemma insert_desc_perm (c : Q) (l : list Q) :
  Permutation (insert_desc c l) (c :: l).
Proof.
  induction l as [| h t IH]; simpl; [reflexivity |].
  destruct (Qle_bool h c); [reflexivity |].
  rewrite IH. apply perm_swap.
Qed.

Lemma sort_desc_sorted (l : list Q) : Sorted desc (sort_desc l).
Proof.
  induction l as [| c l IH]; simpl; [constructor |].
  apply insert_desc_sorted. exact IH.
Qed.

Lemma sort_desc_perm (l : list Q) : Permutation (sort_desc l) l.
Proof.
  induction l as [| c l IH]; simpl; [reflexivity |].
  rewrite insert_desc_perm. constructor. exact IH.
Qed.

Lemma tiers_entries (source_plate_df : list SourceRow) (column : string)
    (sorted : list Q) :
  tiers source_plate_df column = inr sorted ->
  sorted = sort_desc (map sp_conc (entries_of source_plate_df column)).
Proof.
  unfold tiers.
  destruct (entries_of source_plate_df column) as [| e [| e' es]]; intros H.
  - discriminate.
  - discriminate.
  - inversion H. reflexivity.
Qed.

Lemma volume_of_nonzero (conc_to_add c : Q) :
  ~ c == 0 -> volume_of conc_to_add c = inr (myround (10 * conc_to_add / c)).
Proof.
  intros Hc. unfold volume_of.
  apply Qeq_bool_false in Hc. rewrite Hc. reflexivity.
Qed.

(** The loop stops at the first position whose quantized volume is not 0. *)
Lemma resolve_first_nonzero (conc_to_add : Q) (sorted : list Q) :
  0 < conc_to_add ->
  forall (i : nat) (c : Q),
  sorted !! i = Some c -> ~ c == 0 ->
  ~ myround (10 * conc_to_add / c) == 0 ->
  (forall (j : nat) (c' : Q), (j < i)%nat -> sorted !! j = Some c' ->
     ~ c' == 0 /\ myround (10 * conc_to_add / c') == 0) ->
  resolve conc_to_add sorted = inr (c, myround (10 * conc_to_add / c)).
Proof.
  intros Hpos. apply Qlt_bool_iff in Hpos.
  induction sorted as [| c0 rest IH]; intros i c Hi Hc Hv Hbefore.
  - destruct i; discriminate.
  - destruct i as [| i]; simpl in Hi.
    + inversion Hi. subst c0. simpl.
      rewrite (volume_of_nonzero _ _ Hc). simpl.
      apply Qeq_bool_false in Hv. rewrite Hv, Hpos. reflexivity.
    + destruct (Hbefore 0%nat c0) as [Hc0 Hv0]; [lia | reflexivity |].
      simpl. rewrite (volume_of_nonzero _ _ Hc0). simpl.
      apply Qeq_bool_iff in Hv0. rewrite Hv0, Hpos. simpl.
      apply (IH i c Hi Hc Hv).
      intros j c' Hj Hjc. apply (Hbefore (S j) c'); [lia | exact Hjc].
Qed.


Lemma resolve_zero_target (conc_to_add c : Q) (rest : list Q) :
  conc_to_add == 0 -> ~ c == 0 ->
  resolve conc_to_add (c :: rest) = inr (c, myround (10 * conc_to_add / c))
  /\ myround (10 * conc_to_add / c) == 0.
Proof.
  intros Hz Hc. simpl. rewrite (volume_of_nonzero _ _ Hc). simpl.
  assert (Hnpos : Qlt_bool 0 conc_to_add = false).
  { apply Qlt_bool_false. rewrite Hz. apply Qlt_irrefl. }
  rewrite Hnpos. simpl. split; [reflexivity |].
  assert (E : 10 * conc_to_add / c == 0).
  { rewrite Hz. field. exact Hc. }
  rewrite (myround_comp _ _ E). apply myround_zero.
Qed.

Lemma labels_at_spec (source_plate_df : list SourceRow) (column : string)
    (c : Q) (l : string) :
  In l (labels_at source_plate_df column c)
  <-> exists e, In e source_plate_df /\ sp_key e = column
                /\ sp_conc e == c /\ sp_label e = l.
Proof.
  unfold labels_at. rewrite in_map_iff. split.
  - intros (e & Hl & He). apply filter_In in He. destruct He as [Hin Hb].
    apply andb_true_iff in Hb. destruct Hb as [Hq Hk].
    apply Qeq_bool_iff in Hq. apply String.eqb_eq in Hk.
    exists e. repeat split; assumption.
  - intros (e & Hin & Hk & Hq & Hl). exists e. split; [exact Hl |].
    apply filter_In. split; [exact Hin |].
    apply andb_true_iff. split.
    + apply Qeq_bool_iff. exact Hq.
    + apply String.eqb_eq. exact Hk.
Qed.

Lemma cell_upd_eq (c : string) (v : Q) (cells : list (string * Q)) :
  cell (upd c v cells) c = Some v.
Proof.
  induction cells as [| [k w] rest IH]; simpl.
  - rewrite String.eqb_refl. reflexivity.
  - destruct (String.eqb k c) eqn:E; simpl.
    + rewrite String.eqb_refl. reflexivity.
    + rewrite E. exact IH.
Qed.

Lemma cell_upd_ne (c c' : string) (v : Q) (cells : list (string * Q)) :
  c <> c' -> cell (upd c v cells) c' = cell cells c'.
Proof.
  intros Hne. induction cells as [| [k w] rest IH]; simpl.
  - apply String.eqb_neq in Hne. rewrite Hne. reflexivity.
  - destruct (String.eqb k c) eqn:E; simpl.
    + apply String.eqb_eq in E. subst k.
      apply String.eqb_neq in Hne. rewrite Hne. reflexivity.
    + destruct (String.eqb k c'); [reflexivity | exact IH].
Qed.

Lemma vt_rows_set_cell (name c : string) (v : Q) (t : VolTable)
    (n : string) (cells' : list (string * Q)) :
  In (n, cells') (vt_rows (set_cell name c v t)) ->
  exists cells, In (n, cells) (vt_rows t)
                /\ cells' = if String.eqb n name then upd c v cells else cells.
Proof.
  unfold set_cell. simpl. rewrite in_map_iff.
  intros ([n0 cells] & Heq & Hin). simpl in Heq.
  destruct (String.eqb n0 name) eqn:E; injection Heq as Hn Hc;
    exists cells; rewrite <- Hn, E; split; auto.
Qed.

(** Every row labelled [row] holds [v] under each of the labels set. *)
Lemma set_cells_recorded (row : string) (v : Q) (labels : list string) :
  forall (t : VolTable) (done : list string),
  (forall n cells l, In (n, cells) (vt_rows t) -> n = row -> In l done ->
     cell cells l = Some v) ->
  forall n cells l,
  In (n, cells)
     (vt_rows (fold_left (fun t l => set_cell row l v t) labels t)) ->
  n = row -> In l (done ++ labels) -> cell cells l = Some v.
Proof.
  induction labels as [| l0 labels IH]; intros t done Hdone n cells l.
  - rewrite app_nil_r. simpl. apply Hdone.
  - simpl. intros Hin Hn Hl.
    apply (IH (set_cell row l0 v t) (done ++ [l0])) with (n := n);
      [| exact Hin | exact Hn | rewrite <- app_assoc; exact Hl].
    intros n1 cells1 l1 Hin1 Hn1 Hl1.
    apply vt_rows_set_cell in Hin1. destruct Hin1 as (cells0 & Hin0 & Hc).
    subst n1. rewrite String.eqb_refl in Hc. subst cells1.
    destruct (string_dec l0 l1) as [-> | Hne]; [apply cell_upd_eq |].
    rewrite (cell_upd_ne _ _ _ _ Hne).
    apply in_app_or in Hl1. destruct Hl1 as [Hl1 | [Hl1 | []]].
    + apply (Hdone row cells0 l1 Hin0 eq_refl Hl1).
    + contradiction.
Qed.

(** The walk down the tiers for a reagent with several stocks, whose
    concentrations sort to [sorted]: the tiers
    are the concentrations of the column's entries in descending order;
    for a strictly positive target the pass settles on the first tier
    whose quantized volume [myround (10 * target / tier)] is not 0, adds
    that volume to the running total and records it, in the rows of the
    reaction, under the label of the entries of the column that have the
    settled concentration; for a target of 0 the first tier is kept and
    the volume is 0. *)
Theorem column_step_first_nonzero_tier (source_plate_df : list SourceRow)
    (row column : string) (conc_to_add : Q) (vol_table_df : VolTable)
    (vol : Q) (last : Last) (sorted : list Q) :
  tiers source_plate_df column = inr sorted ->
  let recorded (c : Q) :=
    (fold_left (fun t l => set_cell row l (myround (10 * conc_to_add / c)) t)
               (labels_at source_plate_df column c) vol_table_df,
     vol + myround (10 * conc_to_add / c),
     Some (labels_at source_plate_df column c, column,
           myround (10 * conc_to_add / c))) in
  (Sorted desc sorted
   /\ Permutation sorted (map sp_conc (entries_of source_plate_df column)))
  /\ (0 < conc_to_add ->
      forall (i : nat) (c : Q),
      sorted !! i = Some c -> ~ c == 0 ->
      ~ myround (10 * conc_to_add / c) == 0 ->
      (forall (j : nat) (c' : Q), (j < i)%nat -> sorted !! j = Some c' ->
         ~ c' == 0 /\ myround (10 * conc_to_add / c') == 0) ->
      column_step source_plate_df row (vol_table_df, vol, last)
                  (column, conc_to_add) = inr (recorded c))
  /\ (conc_to_add == 0 ->
      forall (c : Q) (rest : list Q), sorted = c :: rest -> ~ c == 0 ->
      column_step source_plate_df row (vol_table_df, vol, last)
                  (column, conc_to_add) = inr (recorded c)
      /\ myround (10 * conc_to_add / c) == 0)
  /\ (forall (c : Q) (l : string),
      (In l (labels_at source_plate_df column c)
       <-> exists e, In e source_plate_df /\ sp_key e = column
                     /\ sp_conc e == c /\ sp_label e = l)
      /\ (In l (labels_at source_plate_df column c) ->
          forall n cells, In (n, cells) (vt_rows (fst (fst (recorded c)))) ->
          n = row -> cell cells l = Some (myround (10 * conc_to_add / c)))).
Proof.
  intros Htiers recorded.
  split; [| split; [| split]].
  - rewrite (tiers_entries _ _ _ Htiers).
    split; [apply sort_desc_sorted | apply sort_desc_perm].
  - intros Hpos i c Hi Hc Hv Hbefore. unfold column_step.
    rewrite Htiers. simpl.
    rewrite (resolve_first_nonzero _ _ Hpos i c Hi Hc Hv Hbefore).
    reflexivity.
  - intros Hz c rest Hs Hc. subst sorted. unfold column_step.
    rewrite Htiers.
    destruct (resolve_zero_target conc_to_add c rest Hz Hc) as [Hr Hv].
    unfold bind. rewrite Hr. split; [reflexivity | exact Hv].
  - intros c l. split; [apply labels_at_spec |].
    intros Hl n cells Hin Hn. simpl in Hin.
    apply (set_cells_recorded row _ (labels_at source_plate_df column c)
             vol_table_df [] (fun _ _ _ _ _ (F : In _ []) => match F with end)
             n cells l Hin Hn).
    exact Hl.
Qed.

Lemma column_step_first_nonzero_tier_witness :
  tiers ex_source "A" = inr [100; 10]
  /\ column_step ex_source "R1" (append_row "R1" {| vt_columns := ["A_100"; "A_10"]; vt_rows := [] |}, 0, None) ("A", 0.02)
     = inr ({| vt_columns := ["A_100"; "A_10"];
               vt_rows := [("R1", [("A_10", myround (10 * 0.02 / 10))])] |},
            0 + myround (10 * 0.02 / 10),
            Some (["A_10"], "A", myround (10 * 0.02 / 10)))
  /\ myround (10 * 0.02 / 10) == 0.025.
Proof.
  split; [reflexivity |]. split; [| reflexivity].
  destruct (column_step_first_nonzero_tier ex_source "R1" "A" 0.02
              (append_row "R1" {| vt_columns := ["A_100"; "A_10"]; vt_rows := [] |})
              0 None [100; 10] eq_refl) as (_ & H & _).
  apply (H eq_refl 1%nat 10 eq_refl).
  - intros C. vm_compute in C. discriminate.
  - intros C. vm_compute in C. discriminate.
  - intros j c' Hj Hc. destruct j as [| j]; [| lia].
    inversion Hc. subst c'. split; [| reflexivity].
    intros C. vm_compute in C. discriminate.
Defined.

(** C3.  A reagent with a single stock is not resolved at all.  Reagent C
    has one inventory row, at concentration 50; at a target of 5 its
    first tier gives the volume 1.  But with one row the lookup of line
    86 yields a number instead of a series, and asking it to sort raises
    an attribute error: no volume is recorded and no table is returned,
    whether C is the only column or follows the column A, which has two
    stocks and is resolved. *)
Theorem single_stock_raises_AttributeError :
  List.filter (fun r => String.eqb (sp_key r) "C") ex_source_C
  = [ {| sp_key := "C"; sp_label := "C_50"; sp_well := "W3";
         sp_conc := 50; sp_volume := VolumeNum 30 |} ]
  /\ myround (10 * 5 / 50) == 1
  /\ tiers ex_source_C "C" = inl AttributeError
  /\ generateVolumeTable [("R1", [("C", 5)])] ex_source_C = inl AttributeError
  /\ generateVolumeTable [("R1", [("A", 5); ("C", 5)])] ex_source_C
     = inl AttributeError
  /\ (exists t, generateVolumeTable [("R1", [("A", 5)])] ex_source_C = inr t).
Proof.
  split; [reflexivity |]. split; [reflexivity |]. split; [reflexivity |].
  split; [reflexivity |]. split; [reflexivity |].
  destruct (generateVolumeTable [("R1", [("A", 5)])] ex_source_C)
    as [e | t] eqn:E; [vm_compute in E; discriminate |].
  exists t. reflexivity.
Qed.




(** C6.  Reagent A at a target of 30 resolves to a volume of 3 from the
    stock at 100, above 2.5; the run stops with the type error of the
    message being built ([str + float]), not with a NameError that names
    the reaction and the total. *)
Theorem volume_exceeded_raises_TypeError :
  resolve 30 [100; 10] = inr (100, myround (10 * 30 / 100))
  /\ myround (10 * 30 / 100) == 3
  /\ 2.5 < myround (10 * 30 / 100)
  /\ generateVolumeTable [("R1", [("A", 30)])] ex_source = inl TypeError
  /\ ~ (exists msg, generateVolumeTable [("R1", [("A", 30)])] ex_source
                    = inl (NameError msg)).
Proof.
  split; [reflexivity |]. split; [reflexivity |]. split; [reflexivity |].
  split; [reflexivity |].
  intros [msg H]. vm_compute in H. discriminate.
Qed.

(** ** TransferProtocolBuilder *)

Lemma float_of_inr (vol_table : VolTable) (rxn component : string)
    (o : option Q) :
  float_of vol_table rxn component = inr o ->
  exists r, List.filter (fun r => String.eqb (fst r) rxn) (vt_rows vol_table)
            = [r]
            /\ o = cell (snd r) component.
Proof.
  unfold float_of.
  destruct (1 <? count_occ string_dec (vt_columns vol_table) component)%nat;
    [discriminate |].
  destruct (List.filter _ _) as [| r [| r' rest]]; try discriminate.
  intros H. inversion H. exists r. split; reflexivity.
Qed.

Lemma allocate_front (vol_range : option Q) (component : string)
    (declared : list string) (u v : Q) (front : string) (rest : list string)
    (used' : Q) :
  allocate vol_range component declared u v = inr (front :: rest, used') ->
  declared !! 0%nat = Some front \/ declared !! 1%nat = Some front.
Proof.
  unfold allocate. destruct vol_range as [vr |]; [| discriminate].
  destruct (Qle_bool vr (u + v)).
  - destruct (length (tail declared) =? 0)%nat; [discriminate |].
    intros H. inversion H as [[Htl Hu]]. right.
    destruct declared as [| d0 ds]; simpl in Htl; [discriminate |].
    subst ds. reflexivity.
  - intros H. inversion H. subst. left. reflexivity.
Qed.

Lemma transfers_at_cons (c : string) (columns : list string)
    (cells : list (string * Q)) (well : string) :
  transfers_at (c :: columns) cells well
  = transfers_at [c] cells well ++ transfers_at columns cells well.
Proof. unfold transfers_at. simpl. rewrite app_nil_r. reflexivity. Qed.

(** One pass of the innermost loop appends the row of its column, if the
    column has a volume above 0, and nothing else. *)
Lemma transfer_step_emits (plate_type : string) (vol_table : VolTable)
    (source_plate_df : list SourceRow) (rxn well component : string)
    (vol_used vol_used' : gmap string Q) (out out' : list Transfer) :
  transfer_step plate_type vol_table source_plate_df rxn well
                (vol_used, out) component = inr (vol_used', out') ->
  exists r,
    List.filter (fun r => String.eqb (fst r) rxn) (vt_rows vol_table) = [r]
    /\ exists new,
         out' = out ++ new
         /\ map placed new = transfers_at [component] (snd r) well
         /\ Forall2 (drawn source_plate_df) new
                    (draws_at [component] (snd r) well).
Proof.
  unfold transfer_step.
  destruct (float_of vol_table rxn component) as [e | o] eqn:Hf;
    [discriminate |].
  apply float_of_inr in Hf. destruct Hf as (r & Hr & ->).
  intros H. exists r. split; [exact Hr |].
  unfold transfers_at, draws_at. simpl in *. rewrite !app_nil_r.
  destruct (cell (snd r) component) as [tv |].
  - destruct (Qlt_bool 0 tv).
    + destruct (wells_of source_plate_df component) as [| w ws] eqn:Hw;
        [discriminate |].
      destruct (vol_used !! component) as [used |]; [| discriminate].
      destruct (allocate (vol_range_of plate_type) component (split_comma w)
                         used tv) as [e | [sw used']] eqn:Ha;
        [discriminate |].
      simpl in H. destruct sw as [| front rest]; [discriminate |].
      inversion H. subst.
      eexists. split; [reflexivity |]. split; [reflexivity |].
      constructor; [| constructor].
      split; [reflexivity |]. split; [reflexivity |].
      exists w, ws. split; [exact Hw |].
      simpl. exact (allocate_front _ _ _ _ _ _ _ _ Ha).
    + inversion H. subst. exists []. rewrite app_nil_r.
      split; [reflexivity |]. split; [reflexivity |]. constructor.
  - inversion H. subst. exists []. rewrite app_nil_r.
    split; [reflexivity |]. split; [reflexivity |]. constructor.
Qed.

Lemma draws_at_cons (c : string) (columns : list string)
    (cells : list (string * Q)) (well : string) :
  draws_at (c :: columns) cells well
  = draws_at [c] cells well ++ draws_at columns cells well.
Proof. unfold draws_at. simpl. rewrite app_nil_r. reflexivity. Qed.

Lemma columns_loop_emits (plate_type : string) (vol_table : VolTable)
    (source_plate_df : list SourceRow) (rxn well : string)
    (r : string * list (string * Q)) (rest : list (string * list (string * Q)))
    (columns : list string) :
  List.filter (fun r => String.eqb (fst r) rxn) (vt_rows vol_table) = r :: rest ->
  forall (vol_used vol_used' : gmap string Q) (out out' : list Transfer),
  for_each (transfer_step plate_type vol_table source_plate_df rxn well)
           (vol_used, out) columns = inr (vol_used', out') ->
  exists new,
    out' = out ++ new
    /\ map placed new = transfers_at columns (snd r) well
    /\ Forall2 (drawn source_plate_df) new (draws_at columns (snd r) well).
Proof.
  intros Hrow.
  induction columns as [| c columns IH]; intros vu vu' out out' Hrun.
  - simpl in Hrun. inversion Hrun. subst. exists [].
    rewrite app_nil_r. split; [reflexivity |]. split; [reflexivity |].
    constructor.
  - apply for_each_cons_inr in Hrun. destruct Hrun as ([vu1 out1] & E & Hrun).
    apply transfer_step_emits in E.
    destruct E as (r0 & Hr0 & new1 & -> & Hp1 & Hw1).
    rewrite Hrow in Hr0. inversion Hr0. subst r0 rest.
    destruct (IH _ _ _ _ Hrun) as (new2 & -> & Hp2 & Hw2).
    exists (new1 ++ new2). split; [rewrite app_assoc; reflexivity |].
    split.
    + rewrite map_app, Hp1, Hp2. symmetry. apply transfers_at_cons.
    + rewrite draws_at_cons. apply List.Forall2_app; assumption.
Qed.

Lemma wells_loop_emits (plate_type : string) (vol_table : VolTable)
    (source_plate_df : list SourceRow) (rxn : string)
    (r : string * list (string * Q)) (rest : list (string * list (string * Q)))
    (wells : list string) :
  List.filter (fun r => String.eqb (fst r) rxn) (vt_rows vol_table) = r :: rest ->
  forall (vol_used vol_used' : gmap string Q) (out out' : list Transfer),
  for_each (fun st well =>
              for_each (transfer_step plate_type vol_table source_plate_df
                                      rxn well) st (vt_columns vol_table))
           (vol_used, out) wells = inr (vol_used', out') ->
  exists new,
    out' = out ++ new
    /\ map placed new
       = flat_map (transfers_at (vt_columns vol_table) (snd r)) wells
    /\ Forall2 (drawn source_plate_df) new
               (flat_map (draws_at (vt_columns vol_table) (snd r)) wells).
Proof.
  intros Hrow.
  induction wells as [| well wells IH]; intros vu vu' out out' Hrun.
  - simpl in Hrun. inversion Hrun. subst. exists [].
    rewrite app_nil_r. split; [reflexivity |]. split; [reflexivity |].
    constructor.
  - apply for_each_cons_inr in Hrun. destruct Hrun as ([vu1 out1] & E & Hrun).
    destruct (columns_loop_emits _ _ _ _ _ _ _ _ Hrow _ _ _ _ E)
      as (new1 & -> & Hp1 & Hw1).
    destruct (IH _ _ _ _ Hrun) as (new2 & -> & Hp2 & Hw2).
    exists (new1 ++ new2). split; [rewrite app_assoc; reflexivity |].
    split.
    + rewrite map_app, Hp1, Hp2. reflexivity.
    + simpl. apply List.Forall2_app; assumption.
Qed.

Lemma has_row_filter (vol_table : VolTable) (rxn : string) :
  existsb (String.eqb rxn) (map fst (vt_rows vol_table)) = false ->
  List.filter (fun r => String.eqb (fst r) rxn) (vt_rows vol_table) = [].
Proof.
  induction (vt_rows vol_table) as [| r rows IH]; simpl; [reflexivity |].
  rewrite (String.eqb_sym (fst r) rxn).
  destruct (String.eqb rxn (fst r)); simpl; [discriminate | exact IH].
Qed.

Lemma has_row_filter_cons (vol_table : VolTable) (rxn : string) :
  existsb (String.eqb rxn) (map fst (vt_rows vol_table)) = true ->
  exists r rest,
    List.filter (fun r => String.eqb (fst r) rxn) (vt_rows vol_table)
    = r :: rest.
Proof.
  induction (vt_rows vol_table) as [| r rows IH]; simpl; [discriminate |].
  rewrite (String.eqb_sym (fst r) rxn).
  destruct (String.eqb rxn (fst r)); simpl; [eauto | exact IH].
Qed.

Lemma rxn_loop_emits (plate_type : string) (vol_table : VolTable)
    (source_plate_df : list SourceRow) (rxn_loc : list (string * list string)) :
  forall (vol_used vol_used' : gmap string Q) (out out' : list Transfer),
  for_each (rxn_step plate_type vol_table source_plate_df)
           (vol_used, out) rxn_loc = inr (vol_used', out') ->
  exists new,
    out' = out ++ new
    /\ map placed new = expected_transfers vol_table rxn_loc
    /\ Forall2 (drawn source_plate_df) new (expected_draws vol_table rxn_loc).
Proof.
  induction rxn_loc as [| [rxn wells] rxn_loc IH]; intros vu vu' out out' Hrun.
  - simpl in Hrun. inversion Hrun. subst. exists [].
    rewrite app_nil_r. split; [reflexivity |]. split; [reflexivity |].
    constructor.
  - apply for_each_cons_inr in Hrun. destruct Hrun as ([vu1 out1] & E & Hrun).
    destruct (IH _ _ _ _ Hrun) as (new2 & -> & Hp2 & Hw2).
    unfold rxn_step in E. unfold expected_transfers, expected_draws. simpl.
    fold (expected_transfers vol_table rxn_loc).
    fold (expected_draws vol_table rxn_loc).
    destruct (existsb (String.eqb rxn) (map fst (vt_rows vol_table))) eqn:Hin.
    + destruct (has_row_filter_cons _ _ Hin) as (r & rest & Hrow).
      rewrite Hrow.
      destruct (wells_loop_emits _ _ _ _ _ _ _ Hrow _ _ _ _ E)
        as (new1 & -> & Hp1 & Hw1).
      exists (new1 ++ new2). split; [rewrite app_assoc; reflexivity |].
      split; [rewrite map_app, Hp1, Hp2; reflexivity |].
      apply List.Forall2_app; assumption.
    + rewrite (has_row_filter _ _ Hin). inversion E. subst.
      exists new2. split; [reflexivity |]. split; assumption.
Qed.

Lemma for_each_skip {S X} (body : S -> X -> result S) (keep : X -> bool)
    (xs : list X) :
  (forall s x, keep x = false -> body s x = ret s) ->
  forall s, for_each body s (List.filter keep xs) = for_each body s xs.
Proof.
  intros Hskip. induction xs as [| x xs IH]; intros s; simpl; [reflexivity |].
  destruct (keep x) eqn:E; simpl.
  - destruct (body s x); simpl; [reflexivity | apply IH].
  - rewrite (Hskip s x E). simpl. apply IH.
Qed.

(** C7.  Positions of reactions without a table row add nothing and
    raise nothing: leaving them out of the layout does not change the
    outcome of [writeProtocol].  And when it returns, the destination
    wells and volumes of its rows are, in order, those of
    [expected_transfers]: for every position of a reaction that has a
    table row and every column of that row with a volume above 0, one
    row to that position with 1000 times the volume. *)
Theorem writeProtocol_transfers (plate_type : string) (vol_table : VolTable)
    (rxn_loc : list (string * list string))
    (source_plate_df : list SourceRow) :
  writeProtocol plate_type vol_table
                (List.filter (has_row vol_table) rxn_loc) source_plate_df
  = writeProtocol plate_type vol_table rxn_loc source_plate_df
  /\ forall output_df,
       writeProtocol plate_type vol_table rxn_loc source_plate_df
       = inr output_df ->
       map placed output_df = expected_transfers vol_table rxn_loc.
Proof.
  split.
  - unfold writeProtocol.
    rewrite (for_each_skip (rxn_step plate_type vol_table source_plate_df)
                           (has_row vol_table)); [reflexivity |].
    intros [vu out] [rxn wells] Hno. unfold has_row in Hno. simpl in Hno.
    unfold rxn_step. rewrite Hno. reflexivity.
  - intros output_df Hrun. unfold writeProtocol in Hrun.
    destruct (for_each _ _ rxn_loc) as [e | [vu out]] eqn:E;
      [discriminate |].
    simpl in Hrun. inversion Hrun. subst out.
    destruct (rxn_loop_emits _ _ _ _ _ _ _ _ E) as (new & -> & Hp & _).
    exact Hp.
Qed.

(** Ten replicates of R1, one transfer of 2.5 each; the position B1 of
    the unknown reaction R9 gives none. *)
Lemma writeProtocol_transfers_witness :
  generateVolumeTable ex_recipe_B ex_source_B = inr ex_table_B
  /\ List.filter (has_row ex_table_B) ex_layout
     = [("R1", ["A1"; "A2"; "A3"; "A4"; "A5"; "A6"; "A7"; "A8"; "A9"; "A10"])]
  /\ exists out,
       writeProtocol "384LDV_AQ_B2" ex_table_B ex_layout ex_source_B = inr out
       /\ map placed out = expected_transfers ex_table_B ex_layout
       /\ expected_transfers ex_table_B ex_layout
          = map (fun well => (well, 2.500 * 1000))
                ["A1"; "A2"; "A3"; "A4"; "A5"; "A6"; "A7"; "A8"; "A9"; "A10"].
Proof.
  split; [reflexivity |]. split; [reflexivity |].
  destruct (writeProtocol "384LDV_AQ_B2" ex_table_B ex_layout ex_source_B)
    as [e | out] eqn:E; [vm_compute in E; discriminate |].
  exists out. split; [reflexivity |].
  split; [| reflexivity].
  exact (proj2 (writeProtocol_transfers _ _ _ _) out E).
Defined.

(** C10.  When [writeProtocol] returns, its rows are, one for one and in
    order, the transfers of [expected_draws]: for every position of a
    reaction that has a table row and every column of that row with a
    volume above 0, the row to that position with 1000 times the volume;
    and the source well of that row is the first or the second well of
    the comma-separated 'Well' cell that the inventory declares for that
    very column.  The cell is split afresh for each transfer and at most
    its front is dropped, so a well declared third or later for a reagent
    is never the source of a transfer of that reagent, whatever the
    number of wells and of rotations. *)
Theorem source_well_first_or_second (plate_type : string)
    (vol_table : VolTable) (rxn_loc : list (string * list string))
    (source_plate_df : list SourceRow) (output_df : list Transfer) :
  writeProtocol plate_type vol_table rxn_loc source_plate_df = inr output_df ->
  Forall2 (drawn source_plate_df) output_df (expected_draws vol_table rxn_loc).
Proof.
  intros Hrun. unfold writeProtocol in Hrun.
  destruct (for_each _ _ rxn_loc) as [e | [vu out]] eqn:E; [discriminate |].
  simpl in Hrun. inversion Hrun. subst out.
  destruct (rxn_loop_emits _ _ _ _ _ _ _ _ E) as (new & -> & _ & Hw).
  exact Hw.
Qed.

(** Each of the ten positions of R1 takes 1 of B_100 (wells W1, W2) and
    1.5 of B_10 (wells W3, W4, W5).  Under the threshold 9.5, B_100 is
    drawn from W1 and, at the rotation of the tenth position, from W2;
    B_10 from W3 and, at the rotation of the seventh position, from W4;
    W5 is never a source. *)
Lemma source_well_first_or_second_witness :
  split_comma "W1,W2" = ["W1"; "W2"]
  /\ split_comma "W3,W4,W5" = ["W3"; "W4"; "W5"]
  /\ map (fun d => fst (fst d)) (expected_draws ex_table_mixed ex_layout)
     = ["B_100"; "B_10"; "B_100"; "B_10"; "B_100"; "B_10"; "B_100"; "B_10";
        "B_100"; "B_10"; "B_100"; "B_10"; "B_100"; "B_10"; "B_100"; "B_10";
        "B_100"; "B_10"; "B_100"; "B_10"]
  /\ exists out,
       writeProtocol "384LDV_AQ_B2" ex_table_mixed ex_layout ex_source_B
       = inr out
       /\ Forall2 (drawn ex_source_B) out
                  (expected_draws ex_table_mixed ex_layout)
       /\ map Source_Well out
          = ["W1"; "W3"; "W1"; "W3"; "W1"; "W3"; "W1"; "W3"; "W1"; "W3";
             "W1"; "W3"; "W1"; "W4"; "W1"; "W3"; "W1"; "W3"; "W2"; "W3"].
Proof.
  split; [reflexivity |]. split; [reflexivity |]. split; [reflexivity |].
  destruct (writeProtocol "384LDV_AQ_B2" ex_table_mixed ex_layout
                          ex_source_B)
    as [e | out] eqn:E; [vm_compute in E; discriminate |].
  exists out. split; [reflexivity |].
  split; [exact (source_well_first_or_second _ _ _ _ _ E) |].
  vm_compute in E. inversion E. reflexivity.
Defined.

(** C5.  The stock B_100 has the two wells W1 and W2.  Ten transfers of
    2.5 under the threshold 9.5 reach it at the fourth, the seventh and
    the tenth transfer: three rotations for two wells.  The run does not
    fail; it returns all ten rows, and goes back to W1 after each
    rotation. *)
Theorem rotations_beyond_wells_not_detected :
  generateVolumeTable ex_recipe_B ex_source_B = inr ex_table_B
  /\ wells_of ex_source_B "B_100" = ["W1,W2"]
  /\ split_comma "W1,W2" = ["W1"; "W2"]
  /\ allocate (vol_range_of "384LDV_AQ_B2") "B_100" ["W1"; "W2"] 7.5 2.5
     = inr (["W2"], 0 + 2.5)
  /\ exists out,
       writeProtocol "384LDV_AQ_B2" ex_table_B ex_layout ex_source_B = inr out
       /\ map Source_Well out
          = ["W1"; "W1"; "W1"; "W2"; "W1"; "W1"; "W2"; "W1"; "W1"; "W2"].
Proof.
  split; [reflexivity |]. split; [reflexivity |]. split; [reflexivity |].
  split; [reflexivity |].
  destruct (writeProtocol "384LDV_AQ_B2" ex_table_B ex_layout ex_source_B)
    as [e | out] eqn:E; [vm_compute in E; discriminate |].
  exists out. split; [reflexivity |].
  vm_compute in E. inversion E. reflexivity.
Qed.

(** C2.  The well reached by a rotation is not kept.  The stock B_100 has
    the wells W1 and W2 and every position of R1 takes 2.5 of it, under
    the threshold 9.5.  The first three transfers use W1; the fourth
    finds 7.5 + 2.5 at the threshold, moves to W2 and restarts the usage
    at 2.5.  At the fifth transfer the usage and the transfer make 5,
    below the threshold, and yet the source is not the well in use, W2,
    but W1 again: lines 195-196 read the declared list anew for every
    transfer, so the drop of line 203 lasts for one row only. *)
Theorem rotation_forgotten_at_next_transfer :
  generateVolumeTable ex_recipe_B ex_source_B = inr ex_table_B
  /\ wells_of ex_source_B "B_100" = ["W1,W2"]
  /\ split_comma "W1,W2" = ["W1"; "W2"]
  /\ vol_range_of "384LDV_AQ_B2" = Some 9.5
  /\ (exists vol_used out u,
        for_each (rxn_step "384LDV_AQ_B2" ex_table_B ex_source_B)
                 (fold_left (fun m k => <[k := 0]> m)
                            (vt_columns ex_table_B) ∅, [])
                 [("R1", ["A1"; "A2"; "A3"; "A4"])]
        = inr (vol_used, out)
        /\ map Source_Well out = ["W1"; "W1"; "W1"; "W2"]
        /\ vol_used !! "B_100" = Some u
        /\ u == 2.5
        /\ u + 2.5 < 9.5
        /\ exists vol_used' out',
             transfer_step "384LDV_AQ_B2" ex_table_B ex_source_B "R1" "A5"
                           (vol_used, out) "B_100"
             = inr (vol_used', out')
             /\ map Source_Well out' = ["W1"; "W1"; "W1"; "W2"; "W1"])
  /\ exists out,
       writeProtocol "384LDV_AQ_B2" ex_table_B ex_layout_five ex_source_B
       = inr out
       /\ map Source_Well out = ["W1"; "W1"; "W1"; "W2"; "W1"]
       /\ map Destination_Well out = ["A1"; "A2"; "A3"; "A4"; "A5"].
Proof.
  split; [reflexivity |]. split; [reflexivity |]. split; [reflexivity |].
  split; [reflexivity |]. split.
  - destruct (for_each (rxn_step "384LDV_AQ_B2" ex_table_B ex_source_B)
                (fold_left (fun m k => <[k := 0]> m)
                           (vt_columns ex_table_B) ∅, [])
                [("R1", ["A1"; "A2"; "A3"; "A4"])])
      as [e | [vol_used out]] eqn:E; [vm_compute in E; discriminate |].
    assert (Hout : map Source_Well out = ["W1"; "W1"; "W1"; "W2"]).
    { vm_compute in E. inversion E. reflexivity. }
    destruct (vol_used !! "B_100") as [u |] eqn:Hu;
      [| vm_compute in E; inversion E; subst; vm_compute in Hu; discriminate].
    assert (Hu25 : u == 2.5).
    { vm_compute in E. inversion E. subst. vm_compute in Hu. inversion Hu.
      reflexivity. }
    destruct (transfer_step "384LDV_AQ_B2" ex_table_B ex_source_B "R1" "A5"
                            (vol_used, out) "B_100")
      as [e | [vol_used' out']] eqn:E5.
    { vm_compute in E. inversion E. subst. vm_compute in E5. discriminate. }
    exists vol_used, out, u. split; [reflexivity |]. split; [exact Hout |].
    split; [exact Hu |]. split; [exact Hu25 |].
    split; [rewrite Hu25; reflexivity |].
    exists vol_used', out'. split; [exact E5 |].
    vm_compute in E. inversion E. subst. vm_compute in E5. inversion E5.
    reflexivity.
  - destruct (writeProtocol "384LDV_AQ_B2" ex_table_B ex_layout_five
                            ex_source_B)
      as [e | out] eqn:E; [vm_compute in E; discriminate |].
    exists out. split; [reflexivity |].
    vm_compute in E. inversion E. split; reflexivity.
Qed.

(** ** VolumeTableBuilder: reaction closure *)

Lemma distinctb_NoDup (l : list string) : distinctb l = true -> NoDup l.
Proof.
  induction l as [| x l IH]; simpl; intros H; [constructor |].
  apply andb_true_iff in H. destruct H as [Hx Hl].
  constructor; [| apply IH; exact Hl].
  rewrite list_elem_of_In. intros Hin.
  assert (E : existsb (String.eqb x) l = true).
  { apply existsb_exists. exists x. split; [exact Hin | apply String.eqb_refl]. }
  rewrite E in Hx. discriminate.
Qed.

Lemma NoDup_map_In_eq {A B} (f : A -> B) (l : list A) (a b : A) :
  NoDup (map f l) -> In a l -> In b l -> f a = f b -> a = b.
Proof.
  induction l as [| x l IH]; simpl; intros Hnd Ha Hb Hf; [contradiction |].
  apply NoDup_cons in Hnd. destruct Hnd as [Hx Hnd].
  rewrite list_elem_of_In in Hx.
  destruct Ha as [-> | Ha]; destruct Hb as [-> | Hb].
  - reflexivity.
  - exfalso. apply Hx. rewrite Hf. apply in_map. exact Hb.
  - exfalso. apply Hx. rewrite <- Hf. apply in_map. exact Ha.
  - apply IH; assumption.
Qed.

Lemma filter_none {A} (f : A -> bool) (l : list A) :
  (forall x, In x l -> f x = false) -> List.filter f l = [].
Proof.
  induction l as [| x l IH]; simpl; intros H; [reflexivity |].
  rewrite (H x (or_introl eq_refl)). apply IH.
  intros y Hy. apply H. right. exact Hy.
Qed.

Lemma labels_at_le_1 (source_plate_df : list SourceRow) (column : string)
    (c : Q) :
  distinct_tiersb source_plate_df = true ->
  (length (labels_at source_plate_df column c) <= 1)%nat.
Proof.
  unfold labels_at. rewrite length_map.
  induction source_plate_df as [| e rest IH]; simpl; intros H; [lia |].
  apply andb_true_iff in H. destruct H as [He Hrest].
  destruct (Qeq_bool (sp_conc e) c && String.eqb (sp_key e) column) eqn:Em.
  - apply andb_true_iff in Em. destruct Em as [Ec Ek].
    apply Qeq_bool_iff in Ec. apply String.eqb_eq in Ek.
    rewrite filter_none; [simpl; lia |].
    intros e' Hin.
    destruct (Qeq_bool (sp_conc e') c && String.eqb (sp_key e') column) eqn:Em';
      [| reflexivity].
    apply andb_true_iff in Em'. destruct Em' as [Ec' Ek'].
    apply Qeq_bool_iff in Ec'. apply String.eqb_eq in Ek'.
    rewrite forallb_forall in He. specialize (He e' Hin).
    apply negb_true_iff in He. apply andb_false_iff in He.
    destruct He as [He | He].
    + apply String.eqb_neq in He. congruence.
    + apply Qeq_bool_false in He. exfalso. apply He.
      rewrite Ec', Ec. reflexivity.
  - apply IH. exact Hrest.
Qed.

Lemma resolve_In (conc_to_add : Q) (sorted : list Q) (c v : Q) :
  resolve conc_to_add sorted = inr (c, v) -> In c sorted.
Proof.
  induction sorted as [| c0 rest IH]; simpl; [discriminate |].
  destruct (volume_of conc_to_add c0) as [e | v0]; simpl; [discriminate |].
  destruct (Qlt_bool 0 conc_to_add && Qeq_bool v0 0).
  - intros H. right. apply IH. exact H.
  - intros H. inversion H. left. reflexivity.
Qed.

Lemma reagent_total_app (cells : list (string * Q)) (k : string) (v : Q) :
  reagent_total (cells ++ [(k, v)])
  == reagent_total cells + (if String.eqb k "Water" then 0 else v).
Proof.
  induction cells as [| [k0 v0] cells IH]; simpl.
  - destruct (String.eqb k "Water"); ring.
  - destruct (String.eqb k0 "Water"); rewrite IH; ring.
Qed.

Lemma reagent_total_upd_water (cells : list (string * Q)) (w : Q) :
  reagent_total (upd "Water" w cells) == reagent_total cells.
Proof.
  induction cells as [| [k0 v0] cells IH]; simpl; [reflexivity |].
  destruct (String.eqb k0 "Water") eqn:E; simpl.
  - reflexivity.
  - rewrite E, IH. reflexivity.
Qed.

Lemma upd_fresh (c : string) (v : Q) (cells : list (string * Q)) :
  ~ In c (map fst cells) -> upd c v cells = cells ++ [(c, v)].
Proof.
  induction cells as [| [k w] cells IH]; simpl; intros H; [reflexivity |].
  destruct (String.eqb k c) eqn:E.
  - apply String.eqb_eq in E. exfalso. apply H. left. exact E.
  - rewrite IH; [reflexivity |]. intros Hin. apply H. right. exact Hin.
Qed.

Lemma relabel_absent (name : string)
    (f : string * list (string * Q) -> string * list (string * Q))
    (rows : list (string * list (string * Q))) :
  ~ In name (map fst rows) ->
  map (fun r => if String.eqb (fst r) name then f r else r) rows = rows.
Proof.
  induction rows as [| r rows IH]; simpl; intros H; [reflexivity |].
  destruct (String.eqb (fst r) name) eqn:E.
  - apply String.eqb_eq in E. exfalso. apply H. left. exact E.
  - rewrite IH; [reflexivity |]. intros Hin. apply H. right. exact Hin.
Qed.

Lemma set_cell_rows_absent (name c : string) (v : Q) (t : VolTable) :
  ~ In name (map fst (vt_rows t)) ->
  vt_rows (set_cell name c v t) = vt_rows t.
Proof. intros H. unfold set_cell. simpl. apply relabel_absent. exact H. Qed.

Lemma set_cell_rows_last (name c : string) (v : Q) (t : VolTable)
    (pre : list (string * list (string * Q))) (cells : list (string * Q)) :
  ~ In name (map fst pre) ->
  vt_rows t = pre ++ [(name, cells)] ->
  vt_rows (set_cell name c v t) = pre ++ [(name, upd c v cells)].
Proof.
  intros H Hrows. unfold set_cell. simpl. rewrite Hrows, map_app. simpl.
  rewrite String.eqb_refl. rewrite relabel_absent; [reflexivity | exact H].
Qed.

Section Closure.

Variable source_plate_df : list SourceRow.
Hypothesis labels_distinct : NoDup (map sp_label source_plate_df).
Hypothesis tiers_distinct : distinct_tiersb source_plate_df = true.

(** A pass that returns has settled on one entry of the column. *)
Lemma column_step_inr (row column : string) (conc_to_add : Q)
    (t t' : VolTable) (vol vol' : Q) (last last' : Last) :
  column_step source_plate_df row (t, vol, last) (column, conc_to_add)
  = inr (t', vol', last') ->
  exists e v,
    In e source_plate_df /\ sp_key e = column
    /\ t' = set_cell row (sp_label e) v t
    /\ vol' = vol + v
    /\ last' = Some ([sp_label e], column, v).
Proof.
  unfold column_step.
  destruct (tiers source_plate_df column) as [x | sorted] eqn:Ht;
    [discriminate |].
  simpl.
  destruct (resolve conc_to_add sorted) as [x | [c v]] eqn:Hr;
    [discriminate |].
  simpl. intros H.
  apply resolve_In in Hr. rewrite (tiers_entries _ _ _ Ht) in Hr.
  apply (Permutation_in _ (sort_desc_perm _)) in Hr.
  apply in_map_iff in Hr. destruct Hr as (e & Hc & He).
  apply filter_In in He. destruct He as [Hin Hk].
  apply String.eqb_eq in Hk.
  assert (Hl : In (sp_label e) (labels_at source_plate_df column c)).
  { apply labels_at_spec. exists e. rewrite Hc.
    split; [exact Hin |]. split; [exact Hk |].
    split; reflexivity. }
  pose proof (labels_at_le_1 source_plate_df column c tiers_distinct) as Hlen.
  destruct (labels_at source_plate_df column c) as [| l [| l' ls]];
    simpl in Hl, Hlen; [contradiction | | lia].
  destruct Hl as [-> | []]. simpl in H. inversion H.
  exists e, v. repeat split; assumption.
Qed.

Lemma columns_loop_total (row : string)
    (pre : list (string * list (string * Q)))
    (columns : list (string * Q)) :
  ~ In row (map fst pre) ->
  forall (done : list string) (t t' : VolTable) (vol vol' : Q)
         (last last' : Last) (cells : list (string * Q)),
  vt_rows t = pre ++ [(row, cells)] ->
  NoDup (done ++ map fst columns) ->
  (forall k, In k (map fst cells) ->
     k <> "Water"
     /\ exists e, In e source_plate_df /\ sp_label e = k
                  /\ In (sp_key e) done) ->
  (forall cc e, In cc columns -> In e source_plate_df ->
     sp_key e = fst cc -> sp_label e <> "Water") ->
  labelled_by_stock source_plate_df last ->
  for_each (column_step source_plate_df row) (t, vol, last) columns
  = inr (t', vol', last') ->
  exists cells',
    vt_rows t' = pre ++ [(row, cells')]
    /\ reagent_total cells' + vol == reagent_total cells + vol'
    /\ (forall k, In k (map fst cells') -> k <> "Water")
    /\ labelled_by_stock source_plate_df last'.
Proof.
  intros Hrow.
  induction columns as [| [column conc] columns IH];
    intros done t t' vol vol' last last' cells Hrows Hnd Hkeys Hwater Hlast Hrun.
  - simpl in Hrun. inversion Hrun. subst. exists cells.
    split; [exact Hrows |]. split; [reflexivity |].
    split; [| exact Hlast].
    intros k Hk. exact (proj1 (Hkeys k Hk)).
  - apply for_each_cons_inr in Hrun.
    destruct Hrun as ([[t1 vol1] last1] & Hstep & Hrun).
    apply column_step_inr in Hstep.
    destruct Hstep as (e & v & Hin & Hkey & -> & -> & ->).
    assert (Hnw : sp_label e <> "Water").
    { apply (Hwater (column, conc) e); [left; reflexivity | exact Hin |
                                        exact Hkey]. }
    assert (Hfresh : ~ In (sp_label e) (map fst cells)).
    { intros Hk. destruct (Hkeys _ Hk) as (_ & e2 & Hin2 & Hl2 & Hd2).
      assert (e2 = e)
        by (apply (NoDup_map_In_eq sp_label source_plate_df); assumption).
      subst e2. rewrite Hkey in Hd2.
      simpl in Hnd. apply NoDup_app in Hnd. destruct Hnd as (_ & Hdis & _).
      apply (Hdis column).
      - apply list_elem_of_In. exact Hd2.
      - apply list_elem_of_In. left. reflexivity. }
    pose proof (set_cell_rows_last row (sp_label e) v t pre cells Hrow Hrows)
      as Hrows1.
    rewrite (upd_fresh _ _ _ Hfresh) in Hrows1.
    specialize (IH (done ++ [column]) (set_cell row (sp_label e) v t) t'
                   (vol + v) vol' (Some ([sp_label e], column, v)) last'
                   (cells ++ [(sp_label e, v)]) Hrows1).
    assert (Hnd1 : NoDup ((done ++ [column]) ++ map fst columns))
      by (rewrite <- app_assoc; exact Hnd).
    assert (Hkeys1 : forall k, In k (map fst (cells ++ [(sp_label e, v)])) ->
              k <> "Water"
              /\ exists e0, In e0 source_plate_df /\ sp_label e0 = k
                            /\ In (sp_key e0) (done ++ [column])).
    { intros k Hk. rewrite map_app in Hk. apply in_app_or in Hk.
      destruct Hk as [Hk | [<- | []]].
      - destruct (Hkeys k Hk) as (Hkw & e2 & Hin2 & Hl2 & Hd2).
        split; [exact Hkw |]. exists e2.
        split; [exact Hin2 |]. split; [exact Hl2 |].
        apply in_or_app. left. exact Hd2.
      - split; [exact Hnw |]. exists e.
        split; [exact Hin |]. split; [reflexivity |].
        apply in_or_app. right. left. symmetry. exact Hkey. }
    assert (Hwater1 : forall cc e0, In cc columns -> In e0 source_plate_df ->
              sp_key e0 = fst cc -> sp_label e0 <> "Water").
    { intros cc e2 Hcc. apply Hwater. right. exact Hcc. }
    assert (Hlast1 : labelled_by_stock source_plate_df (Some ([sp_label e], column, v))).
    { simpl. intros l [<- | []]. apply in_map. exact Hin. }
    destruct (IH Hnd1 Hkeys1 Hwater1 Hlast1 Hrun)
      as (cells' & Hrows' & Htot & Hk' & Hlast').
    exists cells'. split; [exact Hrows' |]. split; [| split; assumption].
    rewrite reagent_total_app in Htot.
    apply String.eqb_neq in Hnw. rewrite Hnw in Htot. lra.
Qed.

Lemma row_step_closed (t t' : VolTable) (last last' : Last) (row : string)
    (columns : list (string * Q)) :
  ~ In row (map fst (vt_rows t)) ->
  (forall n, In n (row :: map fst (vt_rows t)) ->
     ~ In n (map sp_label source_plate_df)) ->
  NoDup (map fst columns) ->
  (forall cc e, In cc columns -> In e source_plate_df ->
     sp_key e = fst cc -> sp_label e <> "Water") ->
  labelled_by_stock source_plate_df last ->
  row_step source_plate_df (t, last) (row, columns) = inr (t', last') ->
  exists cells,
    vt_rows t' = vt_rows t ++ [(row, cells)]
    /\ closed_row cells /\ labelled_by_stock source_plate_df last'.
Proof.
  intros Hrow Hnames Hnd Hwater Hlast. unfold row_step.
  destruct (for_each (column_step source_plate_df row)
                     (append_row row t, 0, last) columns)
    as [x | [[t1 vol1] last1]] eqn:Hloop; [discriminate |].
  simpl.
  destruct (columns_loop_total row (vt_rows t) columns Hrow []
              (append_row row t) t1 0 vol1 last last1 [] eq_refl Hnd
              (fun k (F : In k []) => match F with end) Hwater Hlast Hloop)
    as (cells1 & Hrows1 & Htot & Hk1 & Hlast1).
  simpl in Htot.
  destruct (Qlt_bool 2.5 vol1) eqn:Hmax; [discriminate |].
  apply Qlt_bool_false in Hmax.
  destruct last1 as [[[labels column] v] |]; [| discriminate].
  destruct labels as [| l [| l' ls]]; try discriminate.
  intros H. inversion H. subst t' last'.
  pose proof (set_cell_rows_last row "Water" (2.5 - vol1) t1 (vt_rows t)
                cells1 Hrow Hrows1) as Hrows2.
  exists (upd "Water" (2.5 - vol1) cells1).
  split; [| split; [| exact Hlast1]].
  - rewrite set_cell_rows_absent; [exact Hrows2 |].
    rewrite Hrows2, map_app. simpl. intros Hin.
    assert (Hl : In l (map sp_label source_plate_df))
      by (apply Hlast1; left; reflexivity).
    apply in_app_or in Hin. destruct Hin as [Hin | [<- | []]].
    + apply (Hnames l); [right; exact Hin | exact Hl].
    + apply (Hnames row); [left; reflexivity | exact Hl].
  - exists (2.5 - vol1). split; [apply cell_upd_eq |].
    rewrite reagent_total_upd_water. split; lra.
Qed.

Lemma rows_loop_closed (rows : Recipe) :
  forall (t t' : VolTable) (last last' : Last),
  NoDup (map fst (vt_rows t) ++ map fst rows) ->
  (forall n, In n (map fst (vt_rows t) ++ map fst rows) ->
     ~ In n (map sp_label source_plate_df)) ->
  (forall r, In r rows -> NoDup (map fst (snd r))) ->
  (forall r cc e, In r rows -> In cc (snd r) -> In e source_plate_df ->
     sp_key e = fst cc -> sp_label e <> "Water") ->
  labelled_by_stock source_plate_df last ->
  (forall n cells, In (n, cells) (vt_rows t) -> closed_row cells) ->
  for_each (row_step source_plate_df) (t, last) rows = inr (t', last') ->
  map fst (vt_rows t') = map fst (vt_rows t) ++ map fst rows
  /\ forall n cells, In (n, cells) (vt_rows t') -> closed_row cells.
Proof.
  induction rows as [| [row columns] rows IH];
    intros t t' last last' Hnd Hnames Hcols Hwater Hlast Hclosed Hrun.
  - simpl in Hrun. inversion Hrun. subst. rewrite app_nil_r.
    split; [reflexivity | exact Hclosed].
  - apply for_each_cons_inr in Hrun.
    destruct Hrun as ([t1 last1] & Hstep & Hrun).
    assert (Hfresh : ~ In row (map fst (vt_rows t))).
    { simpl in Hnd. apply NoDup_app in Hnd. destruct Hnd as (_ & Hdis & _).
      intros Hin. apply (Hdis row).
      - apply list_elem_of_In. exact Hin.
      - apply list_elem_of_In. left. reflexivity. }
    assert (Hnames0 : forall n, In n (row :: map fst (vt_rows t)) ->
              ~ In n (map sp_label source_plate_df)).
    { intros n Hn. apply Hnames. simpl. destruct Hn as [<- | Hn].
      - apply in_or_app. right. left. reflexivity.
      - apply in_or_app. left. exact Hn. }
    destruct (row_step_closed t t1 last last1 row columns Hfresh Hnames0
                (Hcols (row, columns) (or_introl eq_refl))
                (fun cc e Hcc => Hwater (row, columns) cc e
                                   (or_introl eq_refl) Hcc)
                Hlast Hstep)
      as (cells & Hrows1 & Hcl & Hlast1).
    assert (Hnames1 : map fst (vt_rows t1) ++ map fst rows
                      = map fst (vt_rows t) ++ map fst ((row, columns) :: rows)).
    { rewrite Hrows1, map_app, <- app_assoc. reflexivity. }
    destruct (IH t1 t' last1 last') as [Hn Hc]; try assumption.
    + rewrite Hnames1. exact Hnd.
    + rewrite Hnames1. exact Hnames.
    + intros r Hr. apply Hcols. right. exact Hr.
    + intros r cc e Hr. apply (Hwater r). right. exact Hr.
    + intros n cells0 Hin. rewrite Hrows1 in Hin.
      apply in_app_or in Hin. destruct Hin as [Hin | [Hin | []]].
      * exact (Hclosed n cells0 Hin).
      * inversion Hin. subst. exact Hcl.
    + split; [rewrite Hn, Hnames1; reflexivity | exact Hc].
Qed.

End Closure.

Lemma well_formed_props (mixing_table_df : Recipe)
    (source_plate_df : list SourceRow) :
  well_formed mixing_table_df source_plate_df = true ->
  NoDup (map fst mixing_table_df)
  /\ (forall r, In r mixing_table_df -> NoDup (map fst (snd r)))
  /\ NoDup (map sp_label source_plate_df)
  /\ distinct_tiersb source_plate_df = true
  /\ (forall n, In n (map fst mixing_table_df) ->
        ~ In n (map sp_label source_plate_df))
  /\ (forall r cc e, In r mixing_table_df -> In cc (snd r) ->
        In e source_plate_df -> sp_key e = fst cc -> sp_label e <> "Water").
Proof.
  unfold well_formed. intros H.
  repeat (apply andb_true_iff in H; destruct H as [H ?]).
  rename H into Hrows, H4 into Hcols, H3 into Hlabels, H2 into Htiers,
         H1 into Hnames, H0 into Hwater.
  rewrite forallb_forall in Hcols, Hnames, Hwater.
  split; [apply distinctb_NoDup; exact Hrows |].
  split; [intros r Hr; apply distinctb_NoDup; apply Hcols; exact Hr |].
  split; [apply distinctb_NoDup; exact Hlabels |].
  split; [exact Htiers |].
  split.
  - intros n Hn Hl. apply in_map_iff in Hn. destruct Hn as (r & <- & Hr).
    specialize (Hnames r Hr). unfold reaction_not_stock in Hnames.
    apply negb_true_iff in Hnames.
    assert (E : existsb (String.eqb (fst r)) (map sp_label source_plate_df)
                = true).
    { apply existsb_exists. exists (fst r).
      split; [exact Hl | apply String.eqb_refl]. }
    congruence.
  - intros r cc e Hr Hcc He Hk Hl.
    specialize (Hwater r Hr). unfold stocks_not_water in Hwater.
    rewrite forallb_forall in Hwater. specialize (Hwater cc Hcc).
    rewrite forallb_forall in Hwater. specialize (Hwater e He).
    apply negb_true_iff in Hwater. apply andb_false_iff in Hwater.
    destruct Hwater as [E | E]; apply String.eqb_neq in E; contradiction.
Qed.

(** Reaction closure on well-formed inputs: when [generateVolumeTable]
    returns, the
    table has one row per reaction of the recipe, and in every row the
    reagent volumes and the diluent 'Water' add up to 2.5 while the
    reagent volumes alone are at most 2.5. *)
Theorem generateVolumeTable_closure (mixing_table_df : Recipe)
    (source_plate_df : list SourceRow) (vol_table_df : VolTable) :
  well_formed mixing_table_df source_plate_df = true ->
  generateVolumeTable mixing_table_df source_plate_df = inr vol_table_df ->
  map fst (vt_rows vol_table_df) = map fst mixing_table_df
  /\ forall row cells, In (row, cells) (vt_rows vol_table_df) ->
       exists water,
         cell cells "Water" = Some water
         /\ reagent_total cells + water == 2.5
         /\ reagent_total cells <= 2.5.
Proof.
  intros Hwf Hrun.
  destruct (well_formed_props _ _ Hwf)
    as (Hrows & Hcols & Hlabels & Htiers & Hnames & Hwater).
  unfold generateVolumeTable in Hrun.
  destruct (for_each (row_step source_plate_df) _ mixing_table_df)
    as [x | [t last]] eqn:Hloop; [discriminate |].
  simpl in Hrun. inversion Hrun. subst t.
  pose proof (rows_loop_closed source_plate_df Hlabels Htiers mixing_table_df
                {| vt_columns := map sp_label source_plate_df; vt_rows := [] |}
                vol_table_df None last) as Hclosed.
  simpl in Hclosed. apply Hclosed; try assumption.
  - exact I.
  - intros n cells [].
Qed.

Lemma generateVolumeTable_closure_witness :
  well_formed ex_recipe_AB ex_source_AB = true
  /\ exists t,
       generateVolumeTable ex_recipe_AB ex_source_AB = inr t
       /\ map fst (vt_rows t) = ["R1"; "R2"]
       /\ forall row cells, In (row, cells) (vt_rows t) -> closed_row cells.
Proof.
  split; [reflexivity |].
  destruct (generateVolumeTable ex_recipe_AB ex_source_AB) as [e | t] eqn:E;
    [vm_compute in E; discriminate |].
  exists t. split; [reflexivity |].
  exact (generateVolumeTable_closure ex_recipe_AB ex_source_AB t eq_refl E).
Defined.

(** C1.  A reaction that bears the name of a stock breaks the closure.
    Reaction 'A_100' takes reagent A at a target of 5 from the stock
    A_100: line 94 records 0.5 under 'A_100', line 102 sets 'Water' to 2,
    and line 103, which writes [vol_to_add] into the rows labelled like
    the stock under the name of the reagent, puts a second 0.5 into the
    same row under 'A'.  The inventory passes [checkInputs], the table is
    returned, and its row holds reagent volumes of 1 beside a diluent of
    2: together 3, not 2.5. *)
Theorem closure_broken_by_reaction_named_like_stock :
  checkInputs ex_source ex_recipe_named_like_stock "384PP_AQ_BP" = inr tt
  /\ exists t a w x,
       generateVolumeTable ex_recipe_named_like_stock ex_source = inr t
       /\ vt_rows t = [("A_100", [("A_100", a); ("Water", w); ("A", x)])]
       /\ a == 0.5 /\ w == 2 /\ x == 0.5
       /\ reagent_total [("A_100", a); ("Water", w); ("A", x)] + w == 3
       /\ ~ closed_row [("A_100", a); ("Water", w); ("A", x)].
Proof.
  split; [reflexivity |].
  destruct (generateVolumeTable ex_recipe_named_like_stock ex_source)
    as [e | t] eqn:E; [vm_compute in E; discriminate |].
  assert (Ht : exists a w x,
             vt_rows t = [("A_100", [("A_100", a); ("Water", w); ("A", x)])]
             /\ a == 0.5 /\ w == 2 /\ x == 0.5).
  { vm_compute in E. inversion E. do 3 eexists.
    split; [reflexivity |]. repeat split; reflexivity. }
  destruct Ht as (a & w & x & Hrows & Ha & Hw & Hx).
  exists t, a, w, x. split; [reflexivity |]. split; [exact Hrows |].
  split; [exact Ha |]. split; [exact Hw |]. split; [exact Hx |].
  split.
  - simpl. rewrite Ha, Hw, Hx. reflexivity.
  - intros (water & Hcell & Hsum & _). simpl in Hcell. inversion Hcell.
    subst water. simpl in Hsum. rewrite Ha, Hw, Hx in Hsum.
    vm_compute in Hsum. discriminate.
Qed.

(** * Further properties of the code *)

(** ** Quantizer *)

Lemma py_round_monotone (x y : Q) : x <= y -> (py_round x <= py_round y)%Z.
Proof.
  intros Hxy.
  destruct (Z_le_gt_dec (py_round x) (py_round y)) as [Hle | Hgt];
    [exact Hle | exfalso].
  pose proof (py_round_near x) as Hx. pose proof (py_round_near y) as Hy.
  apply Qabs_Qle_condition in Hx. apply Qabs_Qle_condition in Hy.
  assert (Hstep : inject_Z (py_round y) + 1 <= inject_Z (py_round x)).
  { change 1 with (inject_Z 1). rewrite <- inject_Z_plus.
    rewrite <- Zle_Qle. lia. }
  assert (E : x == y) by lra.
  rewrite (py_round_comp _ _ E) in Hgt. lia.
Qed.

Lemma grid_point_monotone (x y : Q) :
  x <= y ->
  inject_Z (py_round (x / 0.025)) * 0.025
  <= inject_Z (py_round (y / 0.025)) * 0.025.
Proof.
  intros Hxy.
  assert (Hq : x / 0.025 <= y / 0.025).
  { unfold Qdiv. apply Qmult_le_compat_r; [exact Hxy | discriminate]. }
  apply py_round_monotone in Hq. rewrite Zle_Qle in Hq.
  apply Qmult_le_compat_r; [exact Hq | discriminate].
Qed.

(** X1.  The quantizer is monotone: a larger volume never quantizes to a
    smaller one. *)
Theorem myround_monotone (x y : Q) : x <= y -> myround x <= myround y.
Proof.
  intros Hxy. rewrite (myround_grid x), (myround_grid y).
  apply grid_point_monotone. exact Hxy.
Qed.

Lemma myround_monotone_witness : 0.03 <= 0.04 /\ myround 0.03 <= myround 0.04.
Proof.
  split; [discriminate |]. apply myround_monotone. discriminate.
Defined.

(** X2.  The quantizer gives 0 exactly on the volumes within half a step
    of 0, both ends included (a tie goes to the even neighbour, here 0). *)
Theorem myround_zero_iff (x : Q) : myround x == 0 <-> Qabs x <= 0.0125.
Proof.
  rewrite (myround_grid x). split.
  - intros H.
    assert (Hk : inject_Z (py_round (x / 0.025)) == 0).
    { apply (Qmult_inj_r _ _ 0.025); [discriminate |]. rewrite H. ring. }
    pose proof (py_round_near (x / 0.025)) as Hn.
    apply Qabs_Qle_condition in Hn. apply Qabs_Qle_condition.
    assert (Ex : x == (x / 0.025) * 0.025) by field.
    set (q := x / 0.025) in *. rewrite Hk in Hn. split; rewrite Ex; lra.
  - intros H. apply Qabs_Qle_condition in H.
    assert (Ex : x == (x / 0.025) * 0.025) by field.
    set (q := x / 0.025) in *.
    assert (Hlo : - (1 # 2) <= q) by lra.
    assert (Hhi : q <= 1 # 2) by lra.
    apply py_round_monotone in Hlo. apply py_round_monotone in Hhi.
    change (py_round (- (1 # 2))) with 0%Z in Hlo.
    change (py_round (1 # 2)) with 0%Z in Hhi.
    assert (E : py_round q = 0%Z) by lia.
    rewrite E. reflexivity.
Qed.

(** X3.  Every whole number of 0.025 steps is a value of the quantizer
    and is returned as it is. *)
Theorem myround_fixes_grid (k : Z) :
  myround (inject_Z k * 0.025) == inject_Z k * 0.025.
Proof.
  rewrite (myround_grid (inject_Z k * 0.025)).
  assert (E : inject_Z k * 0.025 / 0.025 == inject_Z k) by field.
  rewrite (py_round_comp _ _ E), py_round_Z. reflexivity.
Qed.

(** ** RangeValidator *)

Lemma existsb_false_forall {A} (f : A -> bool) (l : list A) :
  existsb f l = false <-> forall x, In x l -> f x = false.
Proof.
  induction l as [| a l IH]; simpl.
  - split; [intros _ x [] | reflexivity].
  - rewrite orb_false_iff, IH. split.
    + intros [Ha Hl] x [<- | Hx]; [exact Ha | apply Hl; exact Hx].
    + intros H. split; [apply H; left; reflexivity |].
      intros x Hx. apply H. right. exact Hx.
Qed.

(** [checkInputs] passes exactly when every declared volume lies within
    the bounds, ends included. *)
Lemma checkInputs_passes (source_plate : list SourceRow) (mixing_table : Recipe)
    (plate_type : string) (vol_min vol_max : Q) :
  vol_limits plate_type = Some (vol_min, vol_max) ->
  checkInputs source_plate mixing_table plate_type = inr tt
  <-> forall v, In v (declared_volumes source_plate) ->
        vol_min <= v /\ v <= vol_max.
Proof.
  intros Hlim. unfold checkInputs. rewrite Hlim.
  destruct (declared_volumes source_plate) as [| v0 vol].
  - split; [intros _ v [] | reflexivity].
  - destruct (existsb (fun v => Qlt_bool vol_max v) (v0 :: vol)) eqn:Ha.
    + split; [discriminate |]. intros H. exfalso.
      apply existsb_exists in Ha. destruct Ha as (v & Hin & Hv).
      apply Qlt_bool_iff in Hv. destruct (H v Hin) as [_ Hle].
      exact (Qlt_not_le _ _ Hv Hle).
    + destruct (existsb (fun v => Qlt_bool v vol_min) (v0 :: vol)) eqn:Hb.
      * split; [discriminate |]. intros H. exfalso.
        apply existsb_exists in Hb. destruct Hb as (v & Hin & Hv).
        apply Qlt_bool_iff in Hv. destruct (H v Hin) as [Hle _].
        exact (Qlt_not_le _ _ Hv Hle).
      * split; [| reflexivity]. intros _ v Hin.
        rewrite existsb_false_forall in Ha, Hb.
        specialize (Ha v Hin). specialize (Hb v Hin).
        apply Qlt_bool_false in Ha. apply Qlt_bool_false in Hb.
        split; apply Qnot_lt_le; assumption.
Qed.

(** X4.  For a recognised plate type, an inventory made of two parts
    passes the check exactly when both parts pass it: the check looks at
    each declared volume on its own. *)
Theorem checkInputs_app (source_plate1 source_plate2 : list SourceRow)
    (mixing_table : Recipe) (plate_type : string) (vol_min vol_max : Q) :
  vol_limits plate_type = Some (vol_min, vol_max) ->
  checkInputs (source_plate1 ++ source_plate2) mixing_table plate_type = inr tt
  <-> checkInputs source_plate1 mixing_table plate_type = inr tt
      /\ checkInputs source_plate2 mixing_table plate_type = inr tt.
Proof.
  intros Hlim.
  rewrite !(checkInputs_passes _ _ _ _ _ Hlim).
  unfold declared_volumes. rewrite flat_map_app. split.
  - intros H. split; intros v Hv; apply H; apply in_or_app;
      [left | right]; exact Hv.
  - intros [H1 H2] v Hv. apply in_app_or in Hv.
    destruct Hv as [Hv | Hv]; [apply H1 | apply H2]; exact Hv.
Qed.

Lemma checkInputs_app_witness :
  vol_limits "384PP_AQ_BP" = Some (20, 65)
  /\ checkInputs ex_source [] "384PP_AQ_BP" = inr tt
  /\ checkInputs (ex_source ++ ex_source) [] "384PP_AQ_BP" = inr tt.
Proof.
  split; [reflexivity |]. split; [reflexivity |].
  apply (checkInputs_app ex_source ex_source [] "384PP_AQ_BP" 20 65 eq_refl).
  split; reflexivity.
Defined.

(** X5.  Which of the two messages is raised: the one for volumes above
    the range as soon as some declared volume is above the maximum, even
    when another is below the minimum; the one for volumes below the
    range only when none is above the maximum and some is below. *)
Theorem checkInputs_above_first (source_plate : list SourceRow)
    (mixing_table : Recipe) (plate_type : string) (vol_min vol_max : Q) :
  vol_limits plate_type = Some (vol_min, vol_max) ->
  (checkInputs source_plate mixing_table plate_type = inl (NameError above_msg)
   <-> exists v, In v (declared_volumes source_plate) /\ vol_max < v)
  /\ (checkInputs source_plate mixing_table plate_type
      = inl (NameError below_msg)
      <-> (forall v, In v (declared_volumes source_plate) -> v <= vol_max)
          /\ exists v, In v (declared_volumes source_plate) /\ v < vol_min).
Proof.
  intros Hlim. unfold checkInputs. rewrite Hlim.
  destruct (declared_volumes source_plate) as [| v0 vol].
  { split; split; try discriminate.
    - intros (v & [] & _).
    - intros (_ & v & [] & _). }
  destruct (existsb (fun v => Qlt_bool vol_max v) (v0 :: vol)) eqn:Ha.
  - assert (Habove : exists v, In v (v0 :: vol) /\ vol_max < v).
    { apply existsb_exists in Ha. destruct Ha as (v & Hin & Hv).
      apply Qlt_bool_iff in Hv. eauto. }
    split; split; try discriminate; try (intros _; exact Habove);
      try reflexivity.
    intros (Hall & _). exfalso. destruct Habove as (v & Hin & Hv).
    exact (Qlt_not_le _ _ Hv (Hall v Hin)).
  - assert (Hall : forall v, In v (v0 :: vol) -> v <= vol_max).
    { intros v Hin. rewrite existsb_false_forall in Ha.
      specialize (Ha v Hin). apply Qlt_bool_false in Ha.
      apply Qnot_lt_le. exact Ha. }
    assert (Hnone : ~ exists v, In v (v0 :: vol) /\ vol_max < v).
    { intros (v & Hin & Hv). exact (Qlt_not_le _ _ Hv (Hall v Hin)). }
    destruct (existsb (fun v => Qlt_bool v vol_min) (v0 :: vol)) eqn:Hb.
    + apply existsb_exists in Hb. destruct Hb as (v & Hin & Hv).
      apply Qlt_bool_iff in Hv.
      split; split; try discriminate; try contradiction; try reflexivity.
      intros _. split; [exact Hall | eauto].
    + split; split; try discriminate; try contradiction.
      intros (_ & v & Hin & Hv). exfalso.
      rewrite existsb_false_forall in Hb. specialize (Hb v Hin).
      apply Qlt_bool_false in Hb. contradiction.
Qed.

(** An inventory with one stock above the range and one below it. *)
Lemma checkInputs_above_first_witness :
  vol_limits "384PP_AQ_BP" = Some (20, 65)
  /\ checkInputs
       [ {| sp_key := "A"; sp_label := "A_100"; sp_well := "W1";
            sp_conc := 100; sp_volume := VolumeNum 5 |};
         {| sp_key := "A"; sp_label := "A_10"; sp_well := "W2";
            sp_conc := 10; sp_volume := VolumeNum 70 |} ] [] "384PP_AQ_BP"
     = inl (NameError above_msg).
Proof.
  split; [reflexivity |].
  apply (proj1 (checkInputs_above_first _ [] "384PP_AQ_BP" 20 65 eq_refl)).
  exists 70. split; [simpl; auto | reflexivity].
Defined.

(** X6.  The threshold [writeProtocol] rotates at is the width of the
    load range [checkInputs] enforces for the same plate type, and the
    two functions recognise the same plate types. *)
Theorem vol_range_is_width_of_limits (plate_type : string) :
  match vol_limits plate_type, vol_range_of plate_type with
  | Some (vol_min, vol_max), Some vol_range => vol_range == vol_max - vol_min
  | None, None => True
  | _, _ => False
  end.
Proof.
  unfold vol_limits, vol_range_of.
  destruct (contains "LDV" plate_type); [reflexivity |].
  destruct (contains "384PP" plate_type); reflexivity.
Qed.

(** ** ConcentrationResolver *)

Lemma for_each_invariant {S X} (P : S -> Prop) (body : S -> X -> result S)
    (xs : list X) :
  (forall s x s', In x xs -> P s -> body s x = inr s' -> P s') ->
  forall s s', P s -> for_each body s xs = inr s' -> P s'.
Proof.
  induction xs as [| x xs IH]; intros Hbody s s' Hs Hrun.
  - simpl in Hrun. inversion Hrun. subst. exact Hs.
  - apply for_each_cons_inr in Hrun. destruct Hrun as (s1 & E & Hrun).
    apply (IH (fun s0 y s0' Hy => Hbody s0 y s0' (or_intror Hy)) s1 s');
      [| exact Hrun].
    apply (Hbody s x s1); [left; reflexivity | exact Hs | exact E].
Qed.

(** Every pass of a loop that returns has returned. *)
Lemma for_each_all_pass {S X} (body : S -> X -> result S) (xs : list X) :
  forall s s', for_each body s xs = inr s' ->
  forall x, In x xs -> exists s1 s2, body s1 x = inr s2.
Proof.
  induction xs as [| x0 xs IH]; intros s s' Hrun x Hx; [destruct Hx |].
  apply for_each_cons_inr in Hrun. destruct Hrun as (s1 & E & Hrun).
  destruct Hx as [<- | Hx]; [eauto | exact (IH s1 s' Hrun x Hx)].
Qed.


Lemma desc_transitive : Relations_1.Transitive desc.
Proof. intros a b c Hab Hbc. unfold desc in *. lra. Qed.

Lemma volume_decreases (t c c' : Q) :
  0 < t -> 0 < c' -> c' <= c -> 10 * t / c <= 10 * t / c'.
Proof.
  intros Ht Hc' Hle.
  assert (Hc : 0 < c) by lra.
  apply Qle_shift_div_l; [exact Hc' |].
  assert (E : 10 * t / c * c' == 10 * t * c' / c) by (field; lra).
  rewrite E. apply Qle_shift_div_r; [exact Hc |]. nra.
Qed.

Lemma resolve_minimal (t : Q) (sorted : list Q) :
  0 < t -> Sorted desc sorted -> (forall c', In c' sorted -> 0 < c') ->
  forall c v, resolve t sorted = inr (c, v) ->
  In c sorted /\ v = myround (10 * t / c) /\ ~ v == 0
  /\ forall c', In c' sorted ->
       myround (10 * t / c') == 0 \/ v <= myround (10 * t / c').
Proof.
  intros Ht. pose proof Ht as Htb. apply Qlt_bool_iff in Htb.
  induction sorted as [| c0 rest IH]; intros Hs Hpos c v Hr; [discriminate |].
  assert (Hc0 : ~ c0 == 0).
  { intros E. pose proof (Hpos c0 (or_introl eq_refl)) as H. lra. }
  simpl in Hr. rewrite (volume_of_nonzero _ _ Hc0) in Hr. simpl in Hr.
  rewrite Htb in Hr. simpl in Hr.
  destruct (Qeq_bool (myround (10 * t / c0)) 0) eqn:Ez.
  - apply Qeq_bool_iff in Ez. apply Sorted_inv in Hs. destruct Hs as [Hs _].
    destruct (IH Hs (fun c' H => Hpos c' (or_intror H)) c v Hr)
      as (Hin & Hv & Hnz & Hmin).
    split; [right; exact Hin |]. split; [exact Hv |]. split; [exact Hnz |].
    intros c' [<- | Hc']; [left; exact Ez | apply Hmin; exact Hc'].
  - inversion Hr. subst c v. apply Qeq_bool_false in Ez.
    split; [left; reflexivity |]. split; [reflexivity |].
    split; [exact Ez |].
    pose proof (Sorted_extends desc_transitive Hs) as Hall.
    rewrite List.Forall_forall in Hall.
    intros c' [<- | Hc']; right; [apply Qle_refl |].
    rewrite (myround_grid (10 * t / c0)), (myround_grid (10 * t / c')).
    apply grid_point_monotone.
    apply volume_decreases; [exact Ht | apply Hpos; right; exact Hc' |].
    exact (Hall c' Hc').
Qed.

Lemma tiers_In (source_plate_df : list SourceRow) (column : string)
    (sorted : list Q) (c : Q) :
  tiers source_plate_df column = inr sorted ->
  In c sorted
  <-> exists e, In e source_plate_df /\ sp_key e = column /\ sp_conc e = c.
Proof.
  intros Ht. rewrite (tiers_entries _ _ _ Ht). split.
  - intros Hc. apply (Permutation_in _ (sort_desc_perm _)) in Hc.
    apply in_map_iff in Hc. destruct Hc as (e & Hc & He).
    apply filter_In in He. destruct He as [Hin Hk].
    apply String.eqb_eq in Hk. exists e. auto.
  - intros (e & Hin & Hk & Hc).
    apply (Permutation_in _ (Permutation_sym (sort_desc_perm _))).
    apply in_map_iff. exists e. split; [exact Hc |].
    apply filter_In. split; [exact Hin | apply String.eqb_eq; exact Hk].
Qed.

(** X7.  With a strictly positive target and strictly positive stock
    concentrations, a resolution that returns has settled on a stock of
    the reagent, and its volume is the smallest nonzero quantized volume
    that any stock of the reagent gives: the most concentrated stock that
    can be dispensed is the one used. *)
Theorem resolve_smallest_dispensable (source_plate_df : list SourceRow)
    (column : string) (conc_to_add : Q) (sorted : list Q) (c v : Q) :
  tiers source_plate_df column = inr sorted ->
  0 < conc_to_add ->
  (forall e, In e source_plate_df -> sp_key e = column -> 0 < sp_conc e) ->
  resolve conc_to_add sorted = inr (c, v) ->
  (exists e, In e source_plate_df /\ sp_key e = column /\ sp_conc e = c)
  /\ v = myround (10 * conc_to_add / c)
  /\ 0 < v
  /\ forall e, In e source_plate_df -> sp_key e = column ->
       myround (10 * conc_to_add / sp_conc e) == 0
       \/ v <= myround (10 * conc_to_add / sp_conc e).
Proof.
  intros Ht Hpos Hconc Hr.
  assert (Hall : forall c', In c' sorted -> 0 < c').
  { intros c' Hc'. apply (tiers_In _ _ _ _ Ht) in Hc'.
    destruct Hc' as (e & Hin & Hk & <-). exact (Hconc e Hin Hk). }
  assert (Hs : Sorted desc sorted)
    by (rewrite (tiers_entries _ _ _ Ht); apply sort_desc_sorted).
  destruct (resolve_minimal _ _ Hpos Hs Hall c v Hr) as (Hin & Hv & Hnz & Hmin).
  split; [apply (tiers_In _ _ _ _ Ht); exact Hin |].
  split; [exact Hv |]. split.
  - assert (Hge : 0 <= v).
    { rewrite Hv. rewrite (myround_grid (10 * conc_to_add / c)).
      assert (H0 : 0 <= 10 * conc_to_add / c).
      { apply Qle_shift_div_l; [apply Hall; exact Hin | lra]. }
      apply grid_point_monotone in H0.
      change (inject_Z (py_round (0 / 0.025)) * 0.025) with (0 * 0.025) in H0.
      lra. }
    apply Qle_lteq in Hge. destruct Hge as [Hlt | Heq]; [exact Hlt |].
    exfalso. apply Hnz. symmetry. exact Heq.
  - intros e He Hk. apply Hmin. apply (tiers_In _ _ _ _ Ht). eauto.
Qed.

(** The stocks at 100 and 10 with a target of 0.02: the stock at 100
    gives 0, the stock at 10 gives one step. *)
Lemma resolve_smallest_dispensable_witness :
  tiers ex_source "A" = inr [100; 10]
  /\ resolve 0.02 [100; 10] = inr (10, myround (10 * 0.02 / 10))
  /\ 0 < myround (10 * 0.02 / 10).
Proof.
  split; [reflexivity |]. split; [reflexivity |].
  refine (proj1 (proj2 (proj2 (resolve_smallest_dispensable ex_source "A" 0.02
            [100; 10] 10 (myround (10 * 0.02 / 10)) eq_refl eq_refl _ eq_refl)))).
  intros e [<- | [<- | []]] _; reflexivity.
Defined.

(** ** VolumeTableBuilder *)

Lemma resolve_inr (t : Q) (sorted : list Q) (c v : Q) :
  resolve t sorted = inr (c, v) ->
  In c sorted /\ ~ c == 0 /\ v = myround (10 * t / c) /\ (0 < t -> ~ v == 0).
Proof.
  induction sorted as [| c0 rest IH]; simpl; [discriminate |].
  unfold volume_of.
  destruct (Qeq_bool c0 0) eqn:Ec.
  { destruct (Qeq_bool t 0); discriminate. }
  apply Qeq_bool_false in Ec. simpl.
  destruct (Qlt_bool 0 t && Qeq_bool (myround (10 * t / c0)) 0) eqn:Eb.
  - intros H. destruct (IH H) as (Hin & Hrest). split; [right; exact Hin |].
    exact Hrest.
  - intros H. inversion H. subst c v.
    split; [left; reflexivity |]. split; [exact Ec |].
    split; [reflexivity |]. intros Ht Hz.
    apply Qlt_bool_iff in Ht. apply Qeq_bool_iff in Hz.
    rewrite Ht, Hz in Eb. discriminate.
Qed.






Lemma row_step_inner (source_plate_df : list SourceRow)
    (st st' : VolTable * Last) (row : string) (columns : list (string * Q)) :
  row_step source_plate_df st (row, columns) = inr st' ->
  exists t1 vol1 last1,
    for_each (column_step source_plate_df row)
             (append_row row (fst st), 0, snd st) columns
    = inr (t1, vol1, last1)
    /\ ~ 2.5 < vol1
    /\ exists label column vol_to_add,
         last1 = Some ([label], column, vol_to_add)
         /\ st' = (set_cell label column vol_to_add
                            (set_cell row "Water" (2.5 - vol1) t1), last1).
Proof.
  destruct st as [t last]. unfold row_step. simpl.
  destruct (for_each (column_step source_plate_df row)
                     (append_row row t, 0, last) columns)
    as [x | [[t1 vol1] last1]] eqn:Hloop; simpl; [discriminate |].
  destruct (Qlt_bool 2.5 vol1) eqn:Hmax; [discriminate |].
  apply Qlt_bool_false in Hmax.
  destruct last1 as [[[labels column] v] |]; [| discriminate].
  destruct labels as [| l [| l' ls]]; try discriminate.
  intros H. inversion H. subst st'.
  exists t1, vol1, (Some ([l], column, v)).
  split; [reflexivity |]. split; [exact Hmax |]. exists l, column, v.
  split; reflexivity.
Qed.

(** X9.  When [generateVolumeTable] returns, every reagent column of the
    recipe is stocked: the inventory has an entry of the reagent with a
    nonzero concentration, and for a strictly positive target one whose
    quantized volume is not 0. *)
Theorem generateVolumeTable_columns_stocked (mixing_table_df : Recipe)
    (source_plate_df : list SourceRow) (vol_table_df : VolTable) :
  generateVolumeTable mixing_table_df source_plate_df = inr vol_table_df ->
  forall row cc, In row mixing_table_df -> In cc (snd row) ->
  exists e, In e source_plate_df /\ sp_key e = fst cc /\ ~ sp_conc e == 0
            /\ (0 < snd cc -> ~ myround (10 * snd cc / sp_conc e) == 0).
Proof.
  intros Hrun [row columns] [column conc] Hrow Hcc. simpl in *.
  unfold generateVolumeTable in Hrun.
  destruct (for_each (row_step source_plate_df) _ mixing_table_df)
    as [x | [t last]] eqn:Hloop; [discriminate |].
  destruct (for_each_all_pass _ _ _ _ Hloop _ Hrow) as (s1 & s2 & Hstep).
  apply row_step_inner in Hstep.
  destruct Hstep as (t1 & vol1 & last1 & Hinner & _).
  destruct (for_each_all_pass _ _ _ _ Hinner _ Hcc)
    as ([[t2 vol2] last2] & s3 & Hcol).
  unfold column_step in Hcol.
  destruct (tiers source_plate_df column) as [x | sorted] eqn:Ht;
    [discriminate |].
  simpl in Hcol.
  destruct (resolve conc sorted) as [x | [c v]] eqn:Hr; [discriminate |].
  apply resolve_inr in Hr. destruct Hr as (Hin & Hc & Hv & Hnz).
  apply (tiers_In _ _ _ _ Ht) in Hin. destruct Hin as (e & He & Hk & Hce).
  exists e. subst c v. auto.
Qed.

Lemma generateVolumeTable_columns_stocked_witness :
  generateVolumeTable ex_recipe_B ex_source_B = inr ex_table_B
  /\ exists e, In e ex_source_B /\ sp_key e = "B" /\ ~ sp_conc e == 0
               /\ (0 < 25 -> ~ myround (10 * 25 / sp_conc e) == 0).
Proof.
  split; [reflexivity |].
  exact (generateVolumeTable_columns_stocked ex_recipe_B ex_source_B ex_table_B
           eq_refl ("R1", [("B", 25)]) ("B", 25)
           (or_introl eq_refl) (or_introl eq_refl)).
Defined.

Lemma cell_In (cells : list (string * Q)) (k : string) (v : Q) :
  cell cells k = Some v -> In (k, v) cells.
Proof.
  induction cells as [| [k0 v0] cells IH]; simpl; [discriminate |].
  destruct (String.eqb k0 k) eqn:E.
  - intros H. inversion H. subst. apply String.eqb_eq in E. subst.
    left. reflexivity.
  - intros H. right. exact (IH H).
Qed.

Lemma In_upd (c k : string) (v x : Q) (cells : list (string * Q)) :
  In (k, x) (upd c v cells) -> (k = c /\ x = v) \/ In (k, x) cells.
Proof.
  induction cells as [| [k0 v0] cells IH]; simpl.
  - intros [H | []]. inversion H. left. split; reflexivity.
  - destruct (String.eqb k0 c); simpl.
    + intros [H | H];
        [inversion H; left; split; reflexivity | right; right; exact H].
    + intros [H | H]; [right; left; exact H |].
      destruct (IH H) as [Hx | Hin]; [left; exact Hx | right; right; exact Hin].
Qed.

Lemma set_cell_on_grid (name c : string) (v : Q) (t : VolTable) :
  (c <> "Water" -> quantized v) -> table_on_grid t ->
  table_on_grid (set_cell name c v t).
Proof.
  intros Hv Ht n cells k x Hin Hk Hw.
  apply vt_rows_set_cell in Hin. destruct Hin as (cells0 & Hin0 & Hc).
  destruct (String.eqb n name).
  - subst cells. apply In_upd in Hk. destruct Hk as [[-> ->] | Hk];
      [exact (Hv Hw) | exact (Ht n cells0 k x Hin0 Hk Hw)].
  - subst cells. exact (Ht n cells0 k x Hin0 Hk Hw).
Qed.

Lemma set_cells_on_grid (row : string) (v : Q) (labels : list string) :
  quantized v -> forall t, table_on_grid t ->
  table_on_grid (fold_left (fun t l => set_cell row l v t) labels t).
Proof.
  intros Hv. induction labels as [| l labels IH]; intros t Ht; simpl;
    [exact Ht |].
  apply IH. apply set_cell_on_grid; [intros _; exact Hv | exact Ht].
Qed.

Lemma column_step_on_grid (source_plate_df : list SourceRow) (row : string)
    (st st' : VolTable * Q * Last) (cc : string * Q) :
  inner_on_grid st -> column_step source_plate_df row st cc = inr st' ->
  inner_on_grid st'.
Proof.
  destruct st as [[t vol] last]. destruct cc as [column conc].
  intros (Ht & _). unfold column_step.
  destruct (tiers source_plate_df column) as [x | sorted]; [discriminate |].
  simpl.
  destruct (resolve conc sorted) as [x | [c v]] eqn:Hr; [discriminate |].
  simpl. intros H. inversion H. subst st'.
  apply resolve_inr in Hr. destruct Hr as (_ & _ & Hv & _).
  assert (Hg : quantized v) by (exists conc, c; exact Hv).
  split; [apply set_cells_on_grid; assumption | exact Hg].
Qed.

Lemma row_step_on_grid (source_plate_df : list SourceRow)
    (st st' : VolTable * Last) (r : string * list (string * Q)) :
  outer_on_grid st -> row_step source_plate_df st r = inr st' ->
  outer_on_grid st'.
Proof.
  destruct r as [row columns]. intros [Ht Hlast] Hstep.
  apply row_step_inner in Hstep.
  destruct Hstep as (t1 & vol1 & last1 & Hinner & _ & l & column & v & -> & ->).
  assert (H0 : inner_on_grid (append_row row (fst st), 0, snd st)).
  { split; [| exact Hlast].
    intros n cells k x Hin Hk. unfold append_row in Hin. simpl in Hin.
    apply in_app_or in Hin. destruct Hin as [Hin | [Hin | []]].
    - exact (Ht n cells k x Hin Hk).
    - inversion Hin. subst. destruct Hk. }
  pose proof (for_each_invariant inner_on_grid
                (column_step source_plate_df row) columns
                (fun s x s' _ Hs Hb => column_step_on_grid _ _ s s' x Hs Hb)
                _ _ H0 Hinner) as (Ht1 & Hv).
  split; [| exact Hv]. simpl.
  apply set_cell_on_grid; [intros _; exact Hv |].
  apply set_cell_on_grid; [intros C; contradiction C; reflexivity | exact Ht1].
Qed.

(** X10.  When [generateVolumeTable] returns, every number of the table
    in a column other than 'Water' is a value returned by [myround] for
    a target and a stock, hence a whole number of 0.025 steps.  (The
    diluent is the difference [2.5 - vol], which the code does not pass
    through [myround].) *)
Theorem generateVolumeTable_reagent_cells_quantized
    (mixing_table_df : Recipe) (source_plate_df : list SourceRow)
    (vol_table_df : VolTable) :
  generateVolumeTable mixing_table_df source_plate_df = inr vol_table_df ->
  forall row cells component v,
  In (row, cells) (vt_rows vol_table_df) -> cell cells component = Some v ->
  component <> "Water" ->
  (exists conc_to_add conc_of_source : Q,
     v = myround (10 * conc_to_add / conc_of_source))
  /\ exists k : Z, v == inject_Z k * 0.025.
Proof.
  intros Hrun row cells component v Hrow Hcell Hw.
  unfold generateVolumeTable in Hrun.
  destruct (for_each (row_step source_plate_df) _ mixing_table_df)
    as [x | [t last]] eqn:Hloop; [discriminate |].
  simpl in Hrun. inversion Hrun. subst t.
  assert (H0 : outer_on_grid
                 ({| vt_columns := map sp_label source_plate_df;
                     vt_rows := [] |}, None)).
  { split; [| exact I]. intros n cells0 k x []. }
  pose proof (for_each_invariant outer_on_grid
                (row_step source_plate_df) mixing_table_df
                (fun s x s' _ Hs Hb => row_step_on_grid _ s s' x Hs Hb)
                _ _ H0 Hloop) as [Ht _].
  apply cell_In in Hcell.
  pose proof (Ht row cells component v Hrow Hcell Hw) as Hq.
  split; [exact Hq |].
  destruct Hq as (target & stock & ->).
  exists (py_round (10 * target / stock / 0.025)). apply myround_grid.
Qed.

Lemma generateVolumeTable_reagent_cells_quantized_witness :
  exists t cells v,
    generateVolumeTable ex_recipe_AB ex_source_AB = inr t
    /\ In ("R1", cells) (vt_rows t)
    /\ cell cells "B_10" = Some v
    /\ "B_10" <> "Water"
    /\ (exists k : Z, v == inject_Z k * 0.025)
    /\ v == 0.025.
Proof.
  destruct (generateVolumeTable ex_recipe_AB ex_source_AB) as [e | t] eqn:E;
    [vm_compute in E; discriminate |].
  assert (Ht : exists cells rows v,
             vt_rows t = ("R1", cells) :: rows /\ cell cells "B_10" = Some v
             /\ v == 0.025).
  { vm_compute in E. inversion E. eexists. eexists. eexists.
    split; [reflexivity |]. split; reflexivity. }
  destruct Ht as (cells & rows & v & Hrows & Hcell & Hv).
  assert (Hin : In ("R1", cells) (vt_rows t))
    by (rewrite Hrows; left; reflexivity).
  assert (Hne : "B_10" <> "Water") by discriminate.
  exists t, cells, v. split; [reflexivity |]. split; [exact Hin |].
  split; [exact Hcell |]. split; [exact Hne |]. split; [| exact Hv].
  exact (proj2 (generateVolumeTable_reagent_cells_quantized
                  ex_recipe_AB ex_source_AB t E "R1" cells "B_10" v
                  Hin Hcell Hne)).
Defined.

Lemma extends_refl (t : VolTable) : extends t t.
Proof. split; [reflexivity | exists []; symmetry; apply app_nil_r]. Qed.

Lemma extends_trans (t0 t1 t2 : VolTable) :
  extends t0 t1 -> extends t1 t2 -> extends t0 t2.
Proof.
  intros [Hn1 [e1 Hc1]] [Hn2 [e2 Hc2]]. split; [congruence |].
  exists (e1 ++ e2). rewrite Hc2, Hc1, app_assoc. reflexivity.
Qed.

Lemma set_cell_extends (name c : string) (v : Q) (t : VolTable) :
  extends t (set_cell name c v t) /\ In c (vt_columns (set_cell name c v t)).
Proof.
  unfold set_cell, extends. simpl. split; [split |].
  - rewrite map_map. apply map_ext. intros r.
    destruct (String.eqb (fst r) name); reflexivity.
  - destruct (existsb (String.eqb c) (vt_columns t));
      [exists []; symmetry; apply app_nil_r | exists [c]; reflexivity].
  - destruct (existsb (String.eqb c) (vt_columns t)) eqn:E.
    + apply existsb_exists in E. destruct E as (c' & Hin & Heq).
      apply String.eqb_eq in Heq. subst c'. exact Hin.
    + apply in_or_app. right. left. reflexivity.
Qed.

Lemma set_cells_extends (row : string) (v : Q) (labels : list string) :
  forall t, extends t (fold_left (fun t l => set_cell row l v t) labels t).
Proof.
  induction labels as [| l labels IH]; intros t; simpl; [apply extends_refl |].
  apply (extends_trans _ (set_cell row l v t));
    [apply set_cell_extends | apply IH].
Qed.

Lemma column_step_extends (source_plate_df : list SourceRow) (row : string)
    (t0 : VolTable) (st st' : VolTable * Q * Last) (cc : string * Q) :
  extends t0 (fst (fst st)) ->
  column_step source_plate_df row st cc = inr st' ->
  extends t0 (fst (fst st')).
Proof.
  destruct st as [[t vol] last]. destruct cc as [column conc]. simpl.
  intros Ht. unfold column_step.
  destruct (tiers source_plate_df column) as [x | sorted]; [discriminate |].
  simpl. destruct (resolve conc sorted) as [x | [c v]]; [discriminate |].
  simpl. intros H. inversion H. subst st'. simpl.
  apply (extends_trans _ t); [exact Ht | apply set_cells_extends].
Qed.

Lemma row_step_shape (source_plate_df : list SourceRow)
    (st st' : VolTable * Last) (row : string) (columns : list (string * Q)) :
  row_step source_plate_df st (row, columns) = inr st' ->
  map fst (vt_rows (fst st')) = map fst (vt_rows (fst st)) ++ [row]
  /\ (exists extra, vt_columns (fst st') = vt_columns (fst st) ++ extra)
  /\ In "Water" (vt_columns (fst st')).
Proof.
  intros Hstep. apply row_step_inner in Hstep.
  destruct Hstep as (t1 & vol1 & last1 & Hinner & _ & l & column & v & -> & ->).
  pose proof (for_each_invariant
                (fun s : VolTable * Q * Last =>
                   extends (append_row row (fst st)) (fst (fst s)))
                (column_step source_plate_df row) columns
                (fun s x s' _ Hs Hb => column_step_extends _ _ _ s s' x Hs Hb)
                (append_row row (fst st), 0, snd st) _
                (extends_refl (append_row row (fst st))) Hinner) as H1.
  simpl in H1.
  destruct (set_cell_extends row "Water" (2.5 - vol1) t1) as [H2 Hw].
  destruct (set_cell_extends l column v (set_cell row "Water" (2.5 - vol1) t1))
    as [H3 _].
  destruct (extends_trans _ _ _ (extends_trans _ _ _ H1 H2) H3)
    as [Hn [extra Hc]].
  cbn [fst]. split; [| split].
  - rewrite Hn. unfold append_row. simpl. apply map_app.
  - exists extra. exact Hc.
  - destruct H3 as [_ [e3 Hc3]]. rewrite Hc3. apply in_or_app. left. exact Hw.
Qed.

Lemma rows_loop_shape (source_plate_df : list SourceRow) (rows : Recipe) :
  forall st st' : VolTable * Last,
  for_each (row_step source_plate_df) st rows = inr st' ->
  map fst (vt_rows (fst st')) = map fst (vt_rows (fst st)) ++ map fst rows
  /\ (exists extra, vt_columns (fst st') = vt_columns (fst st) ++ extra)
  /\ (rows <> [] -> In "Water" (vt_columns (fst st'))).
Proof.
  induction rows as [| [row columns] rows IH]; intros st st' Hrun.
  - simpl in Hrun. inversion Hrun. subst. rewrite app_nil_r.
    split; [reflexivity |]. split; [exists []; symmetry; apply app_nil_r |].
    intros H. contradiction.
  - apply for_each_cons_inr in Hrun. destruct Hrun as (s1 & Hstep & Hrun).
    apply row_step_shape in Hstep. destruct Hstep as (Hn1 & [e1 Hc1] & Hw1).
    destruct (IH _ _ Hrun) as (Hn2 & [e2 Hc2] & _).
    split; [| split].
    + rewrite Hn2, Hn1, <- app_assoc. reflexivity.
    + exists (e1 ++ e2). rewrite Hc2, Hc1, app_assoc. reflexivity.
    + intros _. rewrite Hc2. apply in_or_app. left. exact Hw1.
Qed.

(** X11.  When [generateVolumeTable] returns, whatever the inputs, the
    table has one row per reaction, labelled by the reactions in the
    order of the recipe; its columns are the inventory labels in
    inventory order, followed by any added ones; and once the recipe has
    a reaction, 'Water' is one of the columns. *)
Theorem generateVolumeTable_shape (mixing_table_df : Recipe)
    (source_plate_df : list SourceRow) (vol_table_df : VolTable) :
  generateVolumeTable mixing_table_df source_plate_df = inr vol_table_df ->
  map fst (vt_rows vol_table_df) = map fst mixing_table_df
  /\ (exists extra,
        vt_columns vol_table_df = map sp_label source_plate_df ++ extra)
  /\ (mixing_table_df <> [] -> In "Water" (vt_columns vol_table_df)).
Proof.
  intros Hrun. unfold generateVolumeTable in Hrun.
  destruct (for_each (row_step source_plate_df) _ mixing_table_df)
    as [x | [t last]] eqn:Hloop; [discriminate |].
  simpl in Hrun. inversion Hrun. subst t.
  exact (rows_loop_shape source_plate_df mixing_table_df _ _ Hloop).
Qed.

Lemma generateVolumeTable_shape_witness :
  generateVolumeTable ex_recipe_B ex_source_B = inr ex_table_B
  /\ map fst (vt_rows ex_table_B) = ["R1"]
  /\ vt_columns ex_table_B = map sp_label ex_source_B ++ ["Water"; "B"].
Proof.
  split; [reflexivity |].
  destruct (generateVolumeTable_shape ex_recipe_B ex_source_B ex_table_B eq_refl)
    as (Hn & _ & _).
  split; [exact Hn | reflexivity].
Defined.

(** ** TransferProtocolBuilder *)

Lemma for_each_error_inv {S X} (P : S -> Prop) (body : S -> X -> result S)
    (xs : list X) :
  (forall s x s', In x xs -> P s -> body s x = inr s' -> P s') ->
  forall s e, P s -> for_each body s xs = inl e ->
  exists s1 x, In x xs /\ P s1 /\ body s1 x = inl e.
Proof.
  induction xs as [| x0 xs IH]; intros Hbody s e Hs Hrun; [discriminate |].
  simpl in Hrun. destruct (body s x0) as [e0 | s1] eqn:E; simpl in Hrun.
  - inversion Hrun. subst. exists s, x0.
    split; [left; reflexivity | split; assumption].
  - destruct (IH (fun s0 y s0' Hy => Hbody s0 y s0' (or_intror Hy)) s1 e)
      as (s2 & x & Hx & Hs2 & Hb); [| exact Hrun |].
    + apply (Hbody s x0 s1); [left; reflexivity | exact Hs | exact E].
    + exists s2, x. split; [right; exact Hx | split; assumption].
Qed.

Lemma initial_usage_covers (columns : list string) :
  forall (m : gmap string Q) (c : string),
  In c columns \/ is_Some (m !! c) ->
  is_Some (fold_left (fun m k => <[k := 0]> m) columns m !! c).
Proof.
  induction columns as [| k columns IH]; intros m c H; simpl.
  - destruct H as [[] | H]; exact H.
  - apply IH. destruct (decide (k = c)) as [-> | Hne].
    + right. rewrite lookup_insert_eq. eauto.
    + destruct H as [[Hk | Hin] | Hm]; [contradiction | left; exact Hin |].
      right. rewrite lookup_insert_ne; [exact Hm | exact Hne].
Qed.

Lemma split_comma_nonempty (s : string) : split_comma s <> [].
Proof.
  destruct s as [| c rest]; simpl; [discriminate |].
  destruct (Ascii.eqb c ","); [discriminate |].
  destruct (split_comma rest); discriminate.
Qed.

Lemma contains_comma_cons (c : ascii) (w : string) :
  c <> ","%char -> contains "," (String c w) = contains "," w.
Proof.
  intros H.
  change (contains "," (String c w))
    with (String.prefix "," (String c w) || contains "," w).
  change (String.prefix "," (String c w))
    with (if ascii_dec "," c then String.prefix "" w else false).
  destruct (ascii_dec "," c) as [E | _]; [congruence | reflexivity].
Qed.

Lemma split_comma_pieces (s : string) :
  forall p, In p (split_comma s) -> contains "," p = false.
Proof.
  induction s as [| c rest IH]; simpl.
  - intros p [<- | []]. reflexivity.
  - destruct (Ascii.eqb c ",") eqn:Ec.
    + intros p [<- | Hp]; [reflexivity | apply IH; exact Hp].
    + apply Ascii.eqb_neq in Ec.
      destruct (split_comma rest) as [| w ws].
      * intros p [<- | []]. rewrite (contains_comma_cons _ _ Ec). reflexivity.
      * intros p [<- | Hp]; [| apply IH; right; exact Hp].
        rewrite (contains_comma_cons _ _ Ec). apply IH. left. reflexivity.
Qed.

Lemma allocate_error (vol_range : option Q) (component : string)
    (declared : list string) (u v : Q) (e : exn) :
  allocate vol_range component declared u v = inl e ->
  (vol_range = None /\ e = UnboundLocalError "vol_range")
  \/ (length (tail declared) = 0%nat
      /\ e = NameError (exhausted_msg component)).
Proof.
  unfold allocate. destruct vol_range as [vr |].
  - destruct (Qle_bool vr (u + v)); [| discriminate].
    destruct (length (tail declared) =? 0)%nat eqn:El; [| discriminate].
    apply Nat.eqb_eq in El. intros H. inversion H. right. auto.
  - intros H. inversion H. left. auto.
Qed.

Lemma allocate_sublist (vol_range : option Q) (component : string)
    (declared source_well : list string) (u v used' : Q) :
  allocate vol_range component declared u v = inr (source_well, used') ->
  forall w, In w source_well -> In w declared.
Proof.
  unfold allocate. destruct vol_range as [vr |]; [| discriminate].
  destruct (Qle_bool vr (u + v)).
  - destruct (length (tail declared) =? 0)%nat; [discriminate |].
    intros H. inversion H. subst. intros w Hw.
    destruct declared; [destruct Hw | right; exact Hw].
  - intros H. inversion H. subst. auto.
Qed.

(** What one pass of the innermost loop can do. *)
Lemma transfer_step_cases (plate_type : string) (vol_table : VolTable)
    (source_plate_df : list SourceRow) (rxn well component : string)
    (vol_used : gmap string Q) (out : list Transfer) :
  In component (vt_columns vol_table) ->
  is_Some (vol_used !! component) ->
  match transfer_step plate_type vol_table source_plate_df rxn well
                      (vol_used, out) component with
  | inl e => raised_by_protocol plate_type vol_table source_plate_df e
  | inr (vol_used', out') =>
      (forall k, is_Some (vol_used !! k) -> is_Some (vol_used' !! k))
      /\ ((vol_used', out') = (vol_used, out)
          \/ exists front tv w ws,
               vol_range_of plate_type <> None
               /\ wells_of source_plate_df component = w :: ws
               /\ In front (split_comma w) /\ 0 < tv
               /\ out' = out ++ [ {| Source_Plate_Name := "Source[1]";
                                     Source_Plate_Type := plate_type;
                                     Source_Well := front;
                                     Destination_Plate_Name := "Destination[1]";
                                     Destination_Well := well;
                                     Transfer_Volume := tv * 1000 |} ])
  end.
Proof.
  intros Hcol [used Hused]. unfold transfer_step.
  destruct (float_of vol_table rxn component) as [e | o] eqn:Hf; simpl.
  { unfold float_of in Hf.
    destruct (1 <? count_occ string_dec (vt_columns vol_table) component)%nat;
      [inversion Hf; left; reflexivity |].
    destruct (List.filter _ _) as [| r [| r' rest]]; inversion Hf;
      left; reflexivity. }
  destruct o as [tv |]; [| split; [auto | left; reflexivity]].
  destruct (Qlt_bool 0 tv) eqn:Hpos; [| split; [auto | left; reflexivity]].
  apply Qlt_bool_iff in Hpos.
  destruct (wells_of source_plate_df component) as [| w ws] eqn:Hw;
    [right; left; reflexivity |].
  rewrite Hused.
  destruct (allocate (vol_range_of plate_type) component (split_comma w)
                     used tv) as [e | [sw used']] eqn:Ha; simpl.
  - destruct (allocate_error _ _ _ _ _ _ Ha) as [[Hn ->] | [Hl ->]].
    + right. right. left. auto.
    + do 3 right. exists component, w, ws.
      split; [exact Hcol |]. split; [exact Hw |]. split; [| reflexivity].
      pose proof (split_comma_nonempty w) as Hne.
      destruct (split_comma w) as [| d0 ds]; [contradiction |].
      simpl in Hl. simpl. rewrite Hl. reflexivity.
  - destruct sw as [| front rest]; [right; left; reflexivity |].
    split.
    + intros k Hk. destruct (decide (component = k)) as [-> | Hne].
      * rewrite lookup_insert_eq. eauto.
      * rewrite lookup_insert_ne; [exact Hk | exact Hne].
    + right. exists front, tv, w, ws.
      split; [| split; [reflexivity | split; [| split; [exact Hpos | reflexivity]]]].
      * intros Hn. rewrite Hn in Ha. discriminate.
      * apply (allocate_sublist _ _ _ _ _ _ _ Ha). left. reflexivity.
Qed.

Section ProtocolLoops.

Variable plate_type : string.
Variable vol_table : VolTable.
Variable source_plate_df : list SourceRow.
Variable rxn_loc : list (string * list string).

Lemma transfer_step_keeps (rxn well component : string) (wells : list string)
    (st st' : gmap string Q * list Transfer) :
  In (rxn, wells) rxn_loc -> In well wells ->
  In component (vt_columns vol_table) ->
  protocol_state_ok plate_type vol_table rxn_loc st ->
  transfer_step plate_type vol_table source_plate_df rxn well st component
  = inr st' ->
  protocol_state_ok plate_type vol_table rxn_loc st'
  /\ (vol_range_of plate_type = None -> st' = st).
Proof.
  destruct st as [vu out]. intros Hrxn Hwell Hcol [Hcov Hrows] Hstep.
  pose proof (transfer_step_cases plate_type vol_table source_plate_df rxn well
                component vu out Hcol (Hcov component Hcol)) as Hc.
  rewrite Hstep in Hc. destruct st' as [vu' out'].
  destruct Hc as [Hkeep [Heq | (front & tv & w & ws & Hvr & Hw & Hf & Hpos & ->)]].
  - inversion Heq. subst. split; [split; assumption | reflexivity].
  - split; [| intros Hn; contradiction].
    split; [intros c Hc; apply Hkeep; apply Hcov; exact Hc |].
    simpl. apply Forall_app. split; [exact Hrows |].
    constructor; [| constructor].
    unfold written_row. simpl.
    split; [reflexivity |]. split; [reflexivity |]. split; [reflexivity |].
    split; [lra |].
    split; [exact (split_comma_pieces w front Hf) |].
    exists rxn, wells. split; assumption.
Qed.

Lemma transfer_step_raises (rxn well component : string)
    (st : gmap string Q * list Transfer) (e : exn) :
  In component (vt_columns vol_table) ->
  protocol_state_ok plate_type vol_table rxn_loc st ->
  transfer_step plate_type vol_table source_plate_df rxn well st component
  = inl e ->
  raised_by_protocol plate_type vol_table source_plate_df e.
Proof.
  destruct st as [vu out]. intros Hcol [Hcov _] Hstep.
  pose proof (transfer_step_cases plate_type vol_table source_plate_df rxn well
                component vu out Hcol (Hcov component Hcol)) as Hc.
  rewrite Hstep in Hc. exact Hc.
Qed.

Lemma kept_from_refl (st : gmap string Q * list Transfer) :
  protocol_state_ok plate_type vol_table rxn_loc st -> kept_from plate_type vol_table rxn_loc st st.
Proof. intros H. split; [exact H | reflexivity]. Qed.

Lemma columns_loop_keeps (rxn well : string) (wells : list string)
    (st0 st st' : gmap string Q * list Transfer) :
  In (rxn, wells) rxn_loc -> In well wells ->
  kept_from plate_type vol_table rxn_loc st0 st ->
  for_each (transfer_step plate_type vol_table source_plate_df rxn well)
           st (vt_columns vol_table) = inr st' ->
  kept_from plate_type vol_table rxn_loc st0 st'.
Proof.
  intros Hrxn Hwell.
  apply (for_each_invariant (kept_from plate_type vol_table rxn_loc st0)).
  intros s c s' Hc [Hs Hsame] Hb.
  destruct (transfer_step_keeps rxn well c wells s s' Hrxn Hwell Hc Hs Hb)
    as [Hs' Hsame'].
  split; [exact Hs' |]. intros Hn. rewrite (Hsame' Hn). exact (Hsame Hn).
Qed.

Lemma columns_loop_raises (rxn well : string)
    (st : gmap string Q * list Transfer) (e : exn) (wells : list string) :
  In (rxn, wells) rxn_loc -> In well wells ->
  protocol_state_ok plate_type vol_table rxn_loc st ->
  for_each (transfer_step plate_type vol_table source_plate_df rxn well)
           st (vt_columns vol_table) = inl e ->
  raised_by_protocol plate_type vol_table source_plate_df e.
Proof.
  intros Hrxn Hwell Hs Hrun.
  destruct (for_each_error_inv
              (protocol_state_ok plate_type vol_table rxn_loc)
              (transfer_step plate_type vol_table source_plate_df rxn well)
              (vt_columns vol_table)
              (fun s c s' Hc Hs0 Hb =>
                 proj1 (transfer_step_keeps rxn well c wells s s'
                                            Hrxn Hwell Hc Hs0 Hb))
              st e Hs Hrun) as (s1 & c & Hc & Hs1 & Hb).
  exact (transfer_step_raises rxn well c s1 e Hc Hs1 Hb).
Qed.

Lemma rxn_step_keeps (entry : string * list string)
    (st0 st st' : gmap string Q * list Transfer) :
  In entry rxn_loc -> kept_from plate_type vol_table rxn_loc st0 st ->
  rxn_step plate_type vol_table source_plate_df st entry = inr st' ->
  kept_from plate_type vol_table rxn_loc st0 st'.
Proof.
  destruct entry as [rxn wells]. intros Hrxn Hs. unfold rxn_step.
  destruct (existsb (String.eqb rxn) (map fst (vt_rows vol_table)));
    [| intros H; inversion H; subst; exact Hs].
  revert st st' Hs.
  assert (Hsub : forall w, In w wells -> In w wells) by auto.
  revert Hsub. generalize wells at 1 3 as ws.
  induction ws as [| well ws IH]; intros Hsub st st' Hs Hrun.
  - simpl in Hrun. inversion Hrun. subst. exact Hs.
  - apply for_each_cons_inr in Hrun. destruct Hrun as (s1 & E & Hrun).
    apply (IH (fun w H => Hsub w (or_intror H)) s1 st'); [| exact Hrun].
    exact (columns_loop_keeps rxn well wells st0 st s1 Hrxn
             (Hsub well (or_introl eq_refl)) Hs E).
Qed.

Lemma rxn_step_raises (entry : string * list string)
    (st : gmap string Q * list Transfer) (e : exn) :
  In entry rxn_loc -> protocol_state_ok plate_type vol_table rxn_loc st ->
  rxn_step plate_type vol_table source_plate_df st entry = inl e ->
  raised_by_protocol plate_type vol_table source_plate_df e.
Proof.
  destruct entry as [rxn wells]. intros Hrxn Hs. unfold rxn_step.
  destruct (existsb (String.eqb rxn) (map fst (vt_rows vol_table)));
    [| discriminate].
  revert st Hs.
  assert (Hsub : forall w, In w wells -> In w wells) by auto.
  revert Hsub. generalize wells at 1 3 as ws.
  induction ws as [| well ws IH]; intros Hsub st Hs Hrun; [discriminate |].
  simpl in Hrun.
  destruct (for_each (transfer_step plate_type vol_table source_plate_df
                                    rxn well) st (vt_columns vol_table))
    as [e0 | s1] eqn:E; simpl in Hrun.
  - inversion Hrun. subst e0.
    exact (columns_loop_raises rxn well st e wells Hrxn
             (Hsub well (or_introl eq_refl)) Hs E).
  - apply (IH (fun w H => Hsub w (or_intror H)) s1); [| exact Hrun].
    exact (proj1 (columns_loop_keeps rxn well wells st st s1 Hrxn
                    (Hsub well (or_introl eq_refl)) (kept_from_refl st Hs) E)).
Qed.

Lemma initial_state_ok :
  protocol_state_ok plate_type vol_table rxn_loc
    (fold_left (fun m k => <[k := 0]> m) (vt_columns vol_table)
               (∅ : gmap string Q), []).
Proof.
  split; [| constructor].
  intros c Hc. apply initial_usage_covers. left. exact Hc.
Qed.

End ProtocolLoops.

Lemma protocol_loop_keeps (plate_type : string) (vol_table : VolTable)
    (source_plate_df : list SourceRow) (rxn_loc : list (string * list string))
    (st0 st' : gmap string Q * list Transfer) :
  protocol_state_ok plate_type vol_table rxn_loc st0 ->
  for_each (rxn_step plate_type vol_table source_plate_df) st0 rxn_loc
  = inr st' ->
  kept_from plate_type vol_table rxn_loc st0 st'.
Proof.
  intros H0.
  apply (for_each_invariant (kept_from plate_type vol_table rxn_loc st0));
    [| apply kept_from_refl; exact H0].
  intros s entry s' Hin Hs Hb.
  exact (rxn_step_keeps plate_type vol_table source_plate_df rxn_loc
           entry st0 s s' Hin Hs Hb).
Qed.

(** X12.  An exception that leaves [writeProtocol] is a type error, an
    index error, the unbound [vol_range] of an unrecognised plate type,
    or the NameError asking for more volume of a column of the table
    whose 'Well' cell declares a single well; a reagent declared with
    two or more wells never raises it.  The lookup [vol_used[component]]
    never fails. *)
Theorem writeProtocol_errors (plate_type : string) (vol_table : VolTable)
    (rxn_loc : list (string * list string))
    (source_plate_df : list SourceRow) (e : exn) :
  writeProtocol plate_type vol_table rxn_loc source_plate_df = inl e ->
  raised_by_protocol plate_type vol_table source_plate_df e
  /\ (forall k, e <> KeyError k)
  /\ (forall msg, e = NameError msg ->
      exists component w ws,
        msg = exhausted_msg component
        /\ wells_of source_plate_df component = w :: ws
        /\ split_comma w = [w]).
Proof.
  intros Hrun.
  assert (H : raised_by_protocol plate_type vol_table source_plate_df e).
  { unfold writeProtocol in Hrun.
    destruct (for_each _ _ rxn_loc) as [x | [vu out]] eqn:Hloop;
      [| discriminate].
    simpl in Hrun. inversion Hrun. subst x.
    destruct (for_each_error_inv
                (protocol_state_ok plate_type vol_table rxn_loc)
                (rxn_step plate_type vol_table source_plate_df) rxn_loc
                (fun s entry s' Hin Hs Hb =>
                   proj1 (rxn_step_keeps plate_type vol_table source_plate_df
                            rxn_loc entry s s s' Hin
                            (kept_from_refl _ _ _ s Hs) Hb))
                _ e (initial_state_ok plate_type vol_table rxn_loc) Hloop)
      as (s1 & entry & Hin & Hs1 & Hb).
    exact (rxn_step_raises plate_type vol_table source_plate_df rxn_loc
             entry s1 e Hin Hs1 Hb). }
  split; [exact H |]. unfold raised_by_protocol in H. split.
  - intros k ->.
    destruct H as [H | [H | [[_ H] | (c & w & ws & _ & _ & _ & H)]]];
      discriminate.
  - intros msg ->.
    destruct H as [H | [H | [[_ H] | (c & w & ws & _ & Hw & Hl & H)]]];
      try discriminate.
    inversion H. exists c, w, ws. split; [reflexivity |].
    split; [exact Hw |].
    destruct (split_comma w) as [| p [| p' ps]] eqn:Es; simpl in Hl;
      try discriminate.
    f_equal. clear - Es. revert p Es.
    induction w as [| a w IH]; simpl; intros p Es.
    + inversion Es. reflexivity.
    + destruct (Ascii.eqb a ",").
      * pose proof (split_comma_nonempty w) as Hne.
        destruct (split_comma w); [contradiction | discriminate].
      * destruct (split_comma w) as [| q [| q' qs]] eqn:Ew.
        -- exfalso. exact (split_comma_nonempty w Ew).
        -- inversion Es. f_equal. apply IH. reflexivity.
        -- discriminate.
Qed.

(** The stock A_100 has the single well W1: the fourth transfer of 2.5
    reaches 9.5 and the run stops. *)
Lemma writeProtocol_errors_witness :
  writeProtocol "384LDV_AQ_B2" ex_table_A ex_layout ex_source
  = inl (NameError (exhausted_msg "A_100"))
  /\ exists component w ws,
       exhausted_msg "A_100" = exhausted_msg component
       /\ wells_of ex_source component = w :: ws
       /\ split_comma w = [w].
Proof.
  split; [reflexivity |].
  exact (proj2 (proj2 (writeProtocol_errors "384LDV_AQ_B2" ex_table_A
                         ex_layout ex_source _ eq_refl)) _ eq_refl).
Defined.

(** X13.  With a plate type that is neither LDV nor 384PP, [writeProtocol]
    returns only an empty protocol: the first transfer it would write
    reads the unbound [vol_range]. *)
Theorem writeProtocol_unrecognised_plate_type (plate_type : string)
    (vol_table : VolTable) (rxn_loc : list (string * list string))
    (source_plate_df : list SourceRow) (output_df : list Transfer) :
  contains "LDV" plate_type = false ->
  contains "384PP" plate_type = false ->
  writeProtocol plate_type vol_table rxn_loc source_plate_df = inr output_df ->
  output_df = [].
Proof.
  intros H1 H2 Hrun.
  assert (Hn : vol_range_of plate_type = None).
  { unfold vol_range_of. rewrite H1, H2. reflexivity. }
  unfold writeProtocol in Hrun.
  destruct (for_each _ _ rxn_loc) as [x | [vu out]] eqn:Hloop; [discriminate |].
  simpl in Hrun. inversion Hrun. subst out.
  destruct (protocol_loop_keeps plate_type vol_table source_plate_df rxn_loc
              _ _ (initial_state_ok plate_type vol_table rxn_loc) Hloop)
    as [_ Hsame].
  specialize (Hsame Hn). inversion Hsame. reflexivity.
Qed.

Lemma writeProtocol_unrecognised_plate_type_witness :
  writeProtocol "96_WELL" ex_table_idle ex_layout ex_source = inr []
  /\ writeProtocol "96_WELL" ex_table_A ex_layout ex_source
     = inl (UnboundLocalError "vol_range").
Proof.
  split; [| reflexivity].
  destruct (writeProtocol "96_WELL" ex_table_idle ex_layout ex_source)
    as [e | out] eqn:E; [vm_compute in E; discriminate |].
  f_equal.
  exact (writeProtocol_unrecognised_plate_type "96_WELL" ex_table_idle
           ex_layout ex_source out eq_refl eq_refl E).
Defined.

(** X14.  Every row of a returned protocol is written from 'Source[1]'
    to 'Destination[1]' under the given plate type, carries a strictly
    positive volume, names a single source well (no comma is left in
    it), and goes to a well that the layout lists. *)
Theorem writeProtocol_rows (plate_type : string) (vol_table : VolTable)
    (rxn_loc : list (string * list string))
    (source_plate_df : list SourceRow) (output_df : list Transfer) :
  writeProtocol plate_type vol_table rxn_loc source_plate_df = inr output_df ->
  Forall (written_row plate_type rxn_loc) output_df.
Proof.
  intros Hrun. unfold writeProtocol in Hrun.
  destruct (for_each _ _ rxn_loc) as [x | [vu out]] eqn:Hloop; [discriminate |].
  simpl in Hrun. inversion Hrun. subst out.
  destruct (protocol_loop_keeps plate_type vol_table source_plate_df rxn_loc
              _ _ (initial_state_ok plate_type vol_table rxn_loc) Hloop)
    as [[_ Hrows] _].
  exact Hrows.
Qed.

Lemma writeProtocol_rows_witness :
  exists out,
    writeProtocol "384LDV_AQ_B2" ex_table_B ex_layout ex_source_B = inr out
    /\ length out = 10%nat
    /\ Forall (written_row "384LDV_AQ_B2" ex_layout) out.
Proof.
  destruct (writeProtocol "384LDV_AQ_B2" ex_table_B ex_layout ex_source_B)
    as [e | out] eqn:E; [vm_compute in E; discriminate |].
  exists out. split; [reflexivity |].
  split; [vm_compute in E; inversion E; reflexivity |].
  exact (writeProtocol_rows _ _ _ _ _ E).
Defined.

(** ** Destination layout *)

Lemma same_value_eq (x y : option string) : same_value x y = true <-> x = y.
Proof.
  destruct x as [a |], y as [b |]; simpl; split; try discriminate;
    try reflexivity.
  - intros H. apply String.eqb_eq in H. congruence.
  - intros H. inversion H. apply String.eqb_refl.
Qed.

Lemma seen_spec (x : option string) (seen : list (option string)) :
  existsb (same_value x) seen = true <-> In x seen.
Proof.
  rewrite existsb_exists. split.
  - intros (y & Hy & E). apply same_value_eq in E. subst. exact Hy.
  - intros H. exists x. split; [exact H | apply same_value_eq; reflexivity].
Qed.

Lemma unique_spec (values : list (option string)) :
  forall seen,
  NoDup (unique seen values)
  /\ forall x, In x (unique seen values) <-> In x values /\ ~ In x seen.
Proof.
  induction values as [| v values IH]; intros seen; simpl.
  - split; [constructor | intros x; tauto].
  - destruct (existsb (same_value v) seen) eqn:E.
    + apply seen_spec in E. destruct (IH seen) as [Hnd Hin].
      split; [exact Hnd |]. intros x. rewrite Hin. split.
      * intros [H1 H2]. auto.
      * intros [[<- | H1] H2]; [contradiction | auto].
    + assert (Hv : ~ In v seen).
      { intros H. apply seen_spec in H. congruence. }
      destruct (IH (v :: seen)) as [Hnd Hin]. split.
      * constructor; [| exact Hnd]. rewrite list_elem_of_In, Hin.
        intros [_ H]. apply H. left. reflexivity.
      * intros x. simpl. rewrite Hin. simpl. split.
        -- intros [<- | [H1 H2]]; [auto | split; [right; exact H1 | tauto]].
        -- intros [[<- | H1] H2]; [left; reflexivity |].
           destruct (same_value v x) eqn:Ex.
           ++ apply same_value_eq in Ex. left. exact Ex.
           ++ right. split; [exact H1 |]. intros [H | H]; [| contradiction].
              subst. rewrite (proj2 (same_value_eq x x) eq_refl) in Ex.
              discriminate.
Qed.

Lemma keyed_In (plate : Plate) (labels : list (option string))
    (l : string) (wells : list string) :
  In (l, wells)
     (flat_map (fun l => match l with
                         | Some l => [(l, positions plate l)]
                         | None => []
                         end) labels)
  <-> In (Some l) labels /\ wells = positions plate l.
Proof.
  rewrite in_flat_map. split.
  - intros ([l' |] & Hin & H); [| destruct H].
    destruct H as [H | []]. inversion H. subst. auto.
  - intros [Hin ->]. exists (Some l). split; [exact Hin | left; reflexivity].
Qed.

Lemma keyed_NoDup (plate : Plate) (labels : list (option string)) :
  NoDup labels ->
  NoDup (map fst (flat_map (fun l => match l with
                                     | Some l => [(l, positions plate l)]
                                     | None => []
                                     end) labels)).
Proof.
  induction labels as [| x labels IH]; intros Hnd; simpl; [constructor |].
  apply NoDup_cons in Hnd. destruct Hnd as [Hx Hnd].
  destruct x as [l |]; simpl; [| apply IH; exact Hnd].
  constructor; [| apply IH; exact Hnd].
  intros Hin. apply Hx. apply list_elem_of_In. apply list_elem_of_In in Hin.
  apply in_map_iff in Hin. destruct Hin as ([l' wells] & E & Hin).
  simpl in E. subst l'. apply keyed_In in Hin. exact (proj1 Hin).
Qed.

Lemma snd_combine {A B} (l : list A) (l' : list B) :
  length l' = length l -> map snd (combine l l') = l'.
Proof.
  revert l'. induction l as [| a l IH]; intros [| b l'] H; simpl in *;
    try discriminate; try reflexivity.
  f_equal. apply IH. congruence.
Qed.

Lemma plate_cells_values (plate : Plate) :
  rectangular plate ->
  map snd (plate_cells plate) = concat (map snd (plate_rows plate)).
Proof.
  unfold rectangular, plate_cells.
  induction (plate_rows plate) as [| r rows IH]; intros H; simpl;
    [reflexivity |].
  apply Forall_cons in H. destruct H as [Hr Hrows].
  rewrite map_app, map_map, (IH Hrows). simpl.
  f_equal. apply snd_combine. exact Hr.
Qed.

(** X15.  The dictionary [rxn_loc] built from a layout frame with at
    least one row: its keys are distinct, a label is a key exactly when
    some cell holds it, and the wells of a key are the positions of the
    cells holding it, row by row; in a frame whose rows have one cell
    per column no key is left without a well. *)
Theorem rxn_loc_of_is_dictionary (plate : Plate)
    (rxn_loc : list (string * list string)) :
  rxn_loc_of plate = inr rxn_loc ->
  NoDup (map fst rxn_loc)
  /\ (forall l wells,
      In (l, wells) rxn_loc
      <-> In (Some l) (concat (map snd (plate_rows plate)))
          /\ wells = positions plate l)
  /\ (rectangular plate ->
      forall l wells, In (l, wells) rxn_loc -> wells <> []).
Proof.
  unfold rxn_loc_of. destruct (plate_rows plate) as [| r rows] eqn:Hrows;
    [discriminate |].
  rewrite <- Hrows. intros H. inversion H. clear H.
  destruct (unique_spec (concat (map snd (plate_rows plate))) [])
    as [Hnd Hin].
  assert (Hmem : forall l wells,
            In (l, wells)
               (flat_map (fun l => match l with
                                   | Some l => [(l, positions plate l)]
                                   | None => []
                                   end)
                         (unique [] (concat (map snd (plate_rows plate)))))
            <-> In (Some l) (concat (map snd (plate_rows plate)))
                /\ wells = positions plate l).
  { intros l wells. rewrite keyed_In, Hin. simpl. tauto. }
  split; [apply keyed_NoDup; exact Hnd |]. split; [exact Hmem |].
  intros Hrect l wells Hl. apply Hmem in Hl. destruct Hl as [Hl ->].
  rewrite <- (plate_cells_values plate Hrect) in Hl.
  apply in_map_iff in Hl. destruct Hl as (pc & Hs & Hpc).
  unfold positions. intros Hnil.
  assert (Hf : In pc (List.filter (fun pc => holds l (snd pc))
                                  (plate_cells plate))).
  { apply filter_In. split; [exact Hpc |]. unfold holds. rewrite Hs.
    apply same_value_eq. reflexivity. }
  destruct (List.filter _ _); [destruct Hf | discriminate].
Qed.

Lemma rxn_loc_of_is_dictionary_witness :
  rxn_loc_of ex_plate
  = inr [("R1", ["A1"; "B2"]); ("R2", ["A2"; "B1"]); ("R9", ["B3"])]
  /\ NoDup ["R1"; "R2"; "R9"].
Proof.
  split; [reflexivity |].
  exact (proj1 (rxn_loc_of_is_dictionary ex_plate _ eq_refl)).
Defined.

(** Number of cells of [cells] listed under the label [x]. *)
Lemma count_held_nil (labels : list (option string)) :
  list_sum (map (fun x : option string =>
                   match x with
                   | Some l => length (List.filter
                                 (fun pc : string * option string =>
                                    holds l (snd pc)) [])
                   | None => 0%nat
                   end) labels) = 0%nat.
Proof.
  induction labels as [| [l |] labels IH]; simpl; auto.
Qed.

Lemma list_sum_plus {A} (a b : A -> nat) (l : list A) :
  list_sum (map (fun x => (a x + b x)%nat) l)
  = (list_sum (map a l) + list_sum (map b l))%nat.
Proof. induction l as [| x l IH]; simpl; [reflexivity | lia]. Qed.

Lemma list_sum_zero {A} (a : A -> nat) (l : list A) :
  (forall x, In x l -> a x = 0%nat) -> list_sum (map a l) = 0%nat.
Proof.
  induction l as [| x l IH]; intros H; simpl; [reflexivity |].
  rewrite (H x (or_introl eq_refl)), IH; [reflexivity |].
  intros y Hy. apply H. right. exact Hy.
Qed.

(** Among distinct labels exactly one holds a labelled cell. *)
Lemma one_label_holds (y : option string) (labels : list (option string)) :
  NoDup labels -> In y labels ->
  list_sum (map (fun x : option string =>
                   match x with
                   | Some l => if holds l y then 1%nat else 0%nat
                   | None => 0%nat
                   end) labels)
  = if labelled y then 1%nat else 0%nat.
Proof.
  induction labels as [| x labels IH]; intros Hnd Hy; [destruct Hy |].
  apply NoDup_cons in Hnd. destruct Hnd as [Hx Hnd].
  rewrite list_elem_of_In in Hx. simpl.
  destruct Hy as [-> | Hy].
  - rewrite list_sum_zero.
    + destruct y as [l |]; simpl; [| reflexivity].
      unfold holds. simpl. rewrite String.eqb_refl. reflexivity.
    + intros [l |] Hl; [| reflexivity].
      destruct (holds l y) eqn:E; [| reflexivity].
      apply same_value_eq in E. subst y. contradiction.
  - rewrite (IH Hnd Hy).
    destruct x as [l |]; [| reflexivity].
    destruct (holds l y) eqn:E; [| reflexivity].
    apply same_value_eq in E. subst y. contradiction.
Qed.

Lemma count_held (cells : list (string * option string)) :
  forall labels : list (option string),
  NoDup labels -> (forall pc, In pc cells -> In (snd pc) labels) ->
  list_sum (map (fun x : option string =>
                   match x with
                   | Some l => length (List.filter
                                 (fun pc : string * option string =>
                                    holds l (snd pc)) cells)
                   | None => 0%nat
                   end) labels)
  = length (List.filter labelled (map snd cells)).
Proof.
  induction cells as [| pc cells IH]; intros labels Hnd Hall.
  - apply count_held_nil.
  - rewrite (map_ext _
               (fun x : option string =>
                  (match x with
                   | Some l => if holds l (snd pc) then 1 else 0
                   | None => 0
                   end
                   + match x with
                     | Some l => length (List.filter
                                   (fun pc : string * option string =>
                                      holds l (snd pc)) cells)
                     | None => 0
                     end)%nat)).
    + rewrite list_sum_plus, (IH labels Hnd), one_label_holds.
      * simpl. destruct (labelled (snd pc)); reflexivity.
      * exact Hnd.
      * apply Hall. left. reflexivity.
      * intros pc' H. apply Hall. right. exact H.
    + intros [l |]; [| reflexivity]. simpl.
      destruct (holds l (snd pc)); reflexivity.
Qed.

Lemma wells_total (plate : Plate) (labels : list (option string)) :
  length (concat (map snd
            (flat_map (fun l => match l with
                                | Some l => [(l, positions plate l)]
                                | None => []
                                end) labels)))
  = list_sum (map (fun x : option string =>
                     match x with
                     | Some l => length (List.filter
                                   (fun pc : string * option string =>
                                      holds l (snd pc)) (plate_cells plate))
                     | None => 0%nat
                     end) labels).
Proof.
  induction labels as [| [l |] labels IH]; simpl; [reflexivity | | exact IH].
  rewrite length_app, IH. unfold positions. rewrite length_map. reflexivity.
Qed.

(** X16.  In a frame whose rows have one cell per column, the wells of
    [rxn_loc] taken together are as many as the cells that hold a label:
    with the wells of a key being the positions of its cells, every
    labelled cell is the well of exactly one reaction, and an empty cell
    of none. *)
Theorem rxn_loc_of_covers_cells (plate : Plate)
    (rxn_loc : list (string * list string)) :
  rectangular plate ->
  rxn_loc_of plate = inr rxn_loc ->
  length (concat (map snd rxn_loc))
  = length (List.filter labelled (concat (map snd (plate_rows plate)))).
Proof.
  intros Hrect. unfold rxn_loc_of.
  destruct (plate_rows plate) as [| r rows] eqn:Hrows; [discriminate |].
  rewrite <- Hrows. intros H. inversion H. clear H.
  destruct (unique_spec (concat (map snd (plate_rows plate))) [])
    as [Hnd Hin].
  rewrite wells_total, count_held.
  - rewrite (plate_cells_values plate Hrect). reflexivity.
  - exact Hnd.
  - intros pc Hpc. apply Hin. split; [| intros []].
    rewrite <- (plate_cells_values plate Hrect). apply in_map. exact Hpc.
Qed.

Lemma rxn_loc_of_covers_cells_witness :
  rectangular ex_plate
  /\ rxn_loc_of ex_plate
     = inr [("R1", ["A1"; "B2"]); ("R2", ["A2"; "B1"]); ("R9", ["B3"])]
  /\ length (concat (map snd [("R1", ["A1"; "B2"]); ("R2", ["A2"; "B1"]);
                              ("R9", ["B3"])]))
     = 5%nat.
Proof.
  assert (Hrect : rectangular ex_plate) by (repeat constructor).
  split; [exact Hrect |]. split; [reflexivity |].
  exact (rxn_loc_of_covers_cells ex_plate _ Hrect eq_refl).
Defined.

(** X17.  [writeProtocol] from the layout frame: a frame without rows
    stops the run with a value error before any transfer is looked at;
    and every row of a returned protocol goes to the position of a cell
    of the frame that holds a reaction label. *)
Theorem writeProtocol_plate_destinations (plate_type : string)
    (vol_table : VolTable) (plate : Plate)
    (source_plate_df : list SourceRow) :
  (plate_rows plate = [] ->
   writeProtocol_plate plate_type vol_table plate source_plate_df
   = inl ValueError)
  /\ forall output_df,
       writeProtocol_plate plate_type vol_table plate source_plate_df
       = inr output_df ->
       forall t, In t output_df ->
       exists rxn, In (Destination_Well t, Some rxn) (plate_cells plate).
Proof.
  split.
  - intros H. unfold writeProtocol_plate, rxn_loc_of. rewrite H. reflexivity.
  - intros output_df Hrun t Ht. unfold writeProtocol_plate in Hrun.
    destruct (rxn_loc_of plate) as [x | rxn_loc] eqn:Hloc; [discriminate |].
    simpl in Hrun. unfold writeProtocol in Hrun.
    destruct (for_each _ _ rxn_loc) as [x | [vu out]] eqn:Hloop;
      [discriminate |].
    simpl in Hrun. inversion Hrun. subst out.
    destruct (protocol_loop_keeps plate_type vol_table source_plate_df rxn_loc
                _ _ (initial_state_ok plate_type vol_table rxn_loc) Hloop)
      as [[_ Hrows] _].
    simpl in Hrows. rewrite List.Forall_forall in Hrows.
    destruct (Hrows t Ht) as (_ & _ & _ & _ & _ & rxn & wells & Hin & Hw).
    unfold rxn_loc_of in Hloc.
    destruct (plate_rows plate) as [| r rows]; [discriminate |].
    inversion Hloc. subst rxn_loc. apply keyed_In in Hin.
    destruct Hin as [_ ->]. unfold positions in Hw.
    apply in_map_iff in Hw. destruct Hw as ([pos x] & E & Hf).
    simpl in E. subst pos. apply filter_In in Hf. destruct Hf as [Hpc Hh].
    simpl in Hh. apply same_value_eq in Hh. subst x. exists rxn. exact Hpc.
Qed.

Lemma writeProtocol_plate_destinations_witness :
  exists out,
    writeProtocol_plate "384LDV_AQ_B2" ex_table_B ex_plate ex_source_B = inr out
    /\ map Destination_Well out = ["A1"; "B2"]
    /\ forall t, In t out ->
       exists rxn, In (Destination_Well t, Some rxn) (plate_cells ex_plate).
Proof.
  destruct (writeProtocol_plate "384LDV_AQ_B2" ex_table_B ex_plate ex_source_B)
    as [e | out] eqn:E; [vm_compute in E; discriminate |].
  exists out. split; [reflexivity |].
  split; [vm_compute in E; inversion E; reflexivity |].
  exact (proj2 (writeProtocol_plate_destinations "384LDV_AQ_B2" ex_table_B
                  ex_plate ex_source_B) out E).
Defined.

(** ** Load report *)

Lemma py_round_digits_monotone (x y : Q) (prec : nat) :
  x <= y -> py_round_digits x prec <= py_round_digits y prec.
Proof.
  intros Hxy. unfold py_round_digits.
  assert (Hp : 0 < inject_Z (10 ^ Z.of_nat prec)).
  { change 0 with (inject_Z 0). rewrite <- Zlt_Qlt.
    apply Z.pow_pos_nonneg; lia. }
  assert (Hs : x * inject_Z (10 ^ Z.of_nat prec)
               <= y * inject_Z (10 ^ Z.of_nat prec)).
  { apply Qmult_le_compat_r; [exact Hxy | apply Qlt_le_weak; exact Hp]. }
  apply py_round_monotone in Hs. rewrite Zle_Qle in Hs.
  unfold Qdiv. apply Qmult_le_compat_r; [exact Hs |].
  apply Qlt_le_weak. apply Qinv_lt_0_compat. exact Hp.
Qed.

Lemma first_keys_In (ks : list string) :
  forall seen k, In k (first_keys seen ks) -> In k ks.
Proof.
  induction ks as [| k0 ks IH]; intros seen k; simpl; [auto |].
  destruct (existsb (String.eqb k0) seen).
  - intros H. right. exact (IH _ _ H).
  - intros [H | H]; [left; exact H | right; exact (IH _ _ H)].
Qed.

Lemma initial_usage_zero (columns : list string) :
  forall (m : gmap string Q),
  (forall c u, m !! c = Some u -> 0 <= u /\ u == 0) ->
  forall c u,
  fold_left (fun m k => <[k := 0]> m) columns m !! c = Some u ->
  0 <= u /\ u == 0.
Proof.
  induction columns as [| k columns IH]; intros m Hm c u; simpl;
    [apply Hm |].
  apply IH. intros c' u'. destruct (decide (k = c')) as [-> | Hne].
  - rewrite lookup_insert_eq. intros H. inversion H.
    split; [apply Qle_refl | reflexivity].
  - rewrite lookup_insert_ne; [apply Hm | exact Hne].
Qed.

Lemma transfer_step_usage (plate_type : string) (vol_table : VolTable)
    (source_plate_df : list SourceRow) (rxn well component : string)
    (vol_range : Q) (st st' : gmap string Q * list Transfer) :
  vol_range_of plate_type = Some vol_range ->
  cells_below vol_table vol_range ->
  usage_within vol_range st ->
  transfer_step plate_type vol_table source_plate_df rxn well st component
  = inr st' ->
  usage_within vol_range st'.
Proof.
  destruct st as [vu out]. intros Hvr Hcells Hu. unfold transfer_step.
  destruct (float_of vol_table rxn component) as [e | o] eqn:Hf;
    [discriminate |].
  apply float_of_inr in Hf. destruct Hf as (r & Hr & ->). simpl.
  destruct (cell (snd r) component) as [tv |] eqn:Hc;
    [| intros H; inversion H; subst; exact Hu].
  destruct (Qlt_bool 0 tv) eqn:Hpos;
    [| intros H; inversion H; subst; exact Hu].
  apply Qlt_bool_iff in Hpos.
  assert (Htv : tv < vol_range).
  { assert (Hin : In r (vt_rows vol_table)).
    { assert (H : In r [r]) by (left; reflexivity).
      rewrite <- Hr in H. apply filter_In in H. exact (proj1 H). }
    destruct r as [n cells]. exact (Hcells n cells component tv Hin Hc). }
  destruct (wells_of source_plate_df component) as [| w ws]; [discriminate |].
  destruct (vu !! component) as [used |] eqn:Hused; [| discriminate].
  destruct (Hu component used Hused) as [Hu0 Hu1].
  rewrite Hvr. unfold allocate.
  destruct (Qle_bool vol_range (used + tv)) eqn:Hle.
  - destruct (length (tail (split_comma w)) =? 0)%nat; [discriminate |].
    simpl. destruct (tail (split_comma w)) as [| front rest]; [discriminate |].
    intros H. inversion H. subst st'. intros c u. simpl.
    destruct (decide (component = c)) as [-> | Hne].
    + rewrite lookup_insert_eq. intros E. inversion E. split; lra.
    + rewrite lookup_insert_ne; [apply Hu | exact Hne].
  - simpl. destruct (split_comma w) as [| front rest]; [discriminate |].
    assert (Hlt : used + tv < vol_range).
    { apply Qnot_le_lt. intros C. apply Qle_bool_iff in C. congruence. }
    intros H. inversion H. subst st'. intros c u. simpl.
    destruct (decide (component = c)) as [-> | Hne].
    + rewrite lookup_insert_eq. intros E. inversion E. split; lra.
    + rewrite lookup_insert_ne; [apply Hu | exact Hne].
Qed.

Lemma protocol_loop_usage (plate_type : string) (vol_table : VolTable)
    (source_plate_df : list SourceRow) (vol_range : Q)
    (rxn_loc : list (string * list string))
    (st st' : gmap string Q * list Transfer) :
  vol_range_of plate_type = Some vol_range ->
  cells_below vol_table vol_range ->
  usage_within vol_range st ->
  for_each (rxn_step plate_type vol_table source_plate_df) st rxn_loc
  = inr st' ->
  usage_within vol_range st'.
Proof.
  intros Hvr Hcells.
  apply (for_each_invariant (usage_within vol_range)).
  intros s [rxn wells] s' _ Hs. unfold rxn_step.
  destruct (existsb (String.eqb rxn) (map fst (vt_rows vol_table)));
    [| intros H; inversion H; subst; exact Hs].
  revert Hs. apply (for_each_invariant (usage_within vol_range)).
  intros s1 well s1' _ Hs1.
  apply (for_each_invariant (usage_within vol_range)); [| exact Hs1].
  intros s2 c s2' _ Hs2 Hb.
  exact (transfer_step_usage plate_type vol_table source_plate_df rxn well c
           vol_range s2 s2' Hvr Hcells Hs2 Hb).
Qed.

Lemma load_report_lines (plate_type : string) (vol_used : gmap string Q)
    (keys : list string) :
  forall lines0 lines,
  for_each (fun lines component =>
              match vol_used !! component with
              | None => raise (KeyError component)
              | Some used => ret (lines ++ report_line plate_type component used)
              end) lines0 keys = inr lines ->
  forall line, In line lines ->
  In line lines0
  \/ exists component used,
       In component keys /\ vol_used !! component = Some used
       /\ In line (report_line plate_type component used).
Proof.
  induction keys as [| k keys IH]; intros lines0 lines Hrun line Hl.
  - simpl in Hrun. inversion Hrun. subst. left. exact Hl.
  - apply for_each_cons_inr in Hrun. destruct Hrun as (l1 & E & Hrun).
    destruct (vol_used !! k) as [used |] eqn:Hk; [| discriminate].
    inversion E. subst l1.
    destruct (IH _ _ Hrun line Hl) as [H | (c & u & Hc & Hu & Hin)].
    + apply in_app_or in H. destruct H as [H | H]; [left; exact H |].
      right. exists k, used. split; [left; reflexivity | split; assumption].
    + right. exists c, u. split; [right; exact Hc | split; assumption].
Qed.

(** X18.  [writeProtocol] and what it prints.  The protocol is the one
    [writeProtocol] returns; and for a recognised plate type and a table
    whose numbers are all below the rotation threshold, every printed
    line is about a column of the table, gives as most the maximum of
    the plate type, and as least a volume between its minimum and its
    maximum. *)
Theorem writeProtocol_report_within_limits (plate_type : string)
    (vol_table : VolTable) (rxn_loc : list (string * list string))
    (source_plate_df : list SourceRow) (vol_min vol_max vol_range : Q)
    (output_df : list Transfer) (lines : list (string * Q * Q)) :
  vol_limits plate_type = Some (vol_min, vol_max) ->
  vol_range_of plate_type = Some vol_range ->
  cells_below vol_table vol_range ->
  writeProtocol_report plate_type vol_table rxn_loc source_plate_df
  = inr (output_df, lines) ->
  writeProtocol plate_type vol_table rxn_loc source_plate_df = inr output_df
  /\ forall component least most, In (component, least, most) lines ->
       In component (vt_columns vol_table)
       /\ most == vol_max /\ vol_min <= least /\ least <= most.
Proof.
  intros Hlim Hvr Hcells Hrun. unfold writeProtocol_report in Hrun.
  unfold writeProtocol.
  destruct (for_each _ _ rxn_loc) as [x | [vu out]] eqn:Hloop;
    [discriminate |].
  simpl in Hrun. simpl.
  destruct (load_report plate_type vu (first_keys [] (vt_columns vol_table)))
    as [x | ls] eqn:Hrep; [discriminate |].
  simpl in Hrun. inversion Hrun. subst out ls.
  split; [reflexivity |].
  assert (H0 : usage_within vol_range
                 (fold_left (fun m k => <[k := 0]> m) (vt_columns vol_table)
                            (∅ : gmap string Q), ([] : list Transfer))).
  { intros c u Hu. simpl in Hu.
    destruct (initial_usage_zero (vt_columns vol_table) ∅
                (fun c u (F : (∅ : gmap string Q) !! c = Some u) =>
                   ltac:(rewrite lookup_empty in F; discriminate)) c u Hu)
      as [Hu0 Hz].
    split; [exact Hu0 |]. rewrite Hz.
    unfold vol_range_of in Hvr.
    destruct (contains "LDV" plate_type);
      [inversion Hvr; reflexivity |].
    destruct (contains "384PP" plate_type); inversion Hvr; reflexivity. }
  pose proof (protocol_loop_usage plate_type vol_table source_plate_df
                vol_range rxn_loc _ _ Hvr Hcells H0 Hloop) as Hu.
  intros component least most Hline.
  destruct (load_report_lines plate_type vu _ _ _ Hrep _ Hline)
    as [[] | (c & u & Hc & Hlook & Hin)].
  apply first_keys_In in Hc.
  destruct (Hu c u Hlook) as [Hu0 Hu1]. simpl in Hu0, Hu1.
  unfold report_line in Hin. unfold vol_limits in Hlim.
  unfold vol_range_of in Hvr.
  destruct (contains "LDV" plate_type).
  - inversion Hlim. inversion Hvr. subst.
    destruct Hin as [Hin | []]. inversion Hin. subst.
    split; [exact Hc |]. split; [reflexivity |]. split.
    + apply (Qle_trans _ (py_round_digits 4.5 2)); [discriminate |].
      apply py_round_digits_monotone. lra.
    + apply (Qle_trans _ (py_round_digits 14 2)); [| discriminate].
      apply py_round_digits_monotone. lra.
  - destruct (contains "384PP" plate_type); [| discriminate].
    inversion Hlim. inversion Hvr. subst.
    destruct Hin as [Hin | []]. inversion Hin. subst.
    split; [exact Hc |]. split; [reflexivity |]. split.
    + apply (Qle_trans _ (py_round_digits 20 2)); [discriminate |].
      apply py_round_digits_monotone. lra.
    + apply (Qle_trans _ (py_round_digits 65 2)); [| discriminate].
      apply py_round_digits_monotone. lra.
Qed.

(** Ten transfers of 2.5 from B_100 on an LDV plate: four lines, each
    within 4.5 and 14. *)
Lemma writeProtocol_report_within_limits_witness :
  cells_below ex_table_B 9.5
  /\ exists out lines,
       writeProtocol_report "384LDV_AQ_B2" ex_table_B ex_layout ex_source_B
       = inr (out, lines)
       /\ map (fun line => fst (fst line)) lines
          = ["B_100"; "B_10"; "Water"; "B"]
       /\ forall component least most, In (component, least, most) lines ->
            In component (vt_columns ex_table_B)
            /\ most == 14 /\ 4.5 <= least /\ least <= most.
Proof.
  assert (Hcells : cells_below ex_table_B 9.5).
  { intros n cells c v [H | []] Hc. inversion H. subst.
    cbn -[String.eqb] in Hc.
    destruct ("B_100" =? c)%string; [inversion Hc; reflexivity |].
    destruct ("Water" =? c)%string; [inversion Hc; reflexivity | discriminate]. }
  split; [exact Hcells |].
  destruct (writeProtocol_report "384LDV_AQ_B2" ex_table_B ex_layout ex_source_B)
    as [e | [out lines]] eqn:E; [vm_compute in E; discriminate |].
  exists out, lines. split; [reflexivity |].
  split; [vm_compute in E; inversion E; reflexivity |].
  exact (proj2 (writeProtocol_report_within_limits "384LDV_AQ_B2" ex_table_B
                  ex_layout ex_source_B 4.5 14 9.5 out lines
                  eq_refl eq_refl Hcells E)).
Defined.
